(** * ChittyAuth token manager: a shallow embedding of [TokenManager]

    The development follows [src/token-manager.js]: provisioning,
    validation, refresh and revocation of bearer tokens over a D1 table
    and four KV namespaces.

    Modelling conventions.
    - JavaScript strings are UTF-8 byte strings ([string]); [\s] of the
      Bearer regular expression is recognised on the UTF-8 encodings of
      the ECMAScript white space and line terminator code points.
    - [Date.now()] is an argument [now] (milliseconds) of each operation:
      one call of an operation reads one clock value.
    - SHA-256, HMAC-SHA256, base64url and [crypto.randomBytes] are
      primitives of the platform, taken as a [Platform] record.
    - A KV namespace maps a key to a value and the instant at which the
      entry expires; [get] returns only entries that have not expired.
      JSON values are kept as the records they encode.
    - Store calls succeed: the D1 table is the list of its rows in
      insertion order, [first()] is the first matching row.
    - An instant is kept as its millisecond value. [new Date(ms)
      .toISOString()] throws [RangeError: Invalid time value] when [ms]
      is more than 8.64e15 from the epoch: [provision] throws it for
      the expiry it has computed. [validate] and [revoke] convert a
      stored expiry and the clock value, which are taken to be dates. *)

From stdpp Require Import gmap strings list fin_maps pretty.
From Stdlib Require Import ZArith Ascii String.

Open Scope string_scope.
Open Scope Z_scope.

(** ** Strings *)

Module Js.

(** [c.toLowerCase()] on the ASCII letters, which are the only characters
    the case-insensitive flag relates to the letters of [Bearer]. *)
Definition lower (c : ascii) : ascii :=
  let n := N_of_ascii c in
  if ((65 <=? n) && (n <=? 90))%N then ascii_of_N (n + 32) else c.

(** Match the lower-case pattern [pat] at the head of [s], ignoring case;
    the rest of [s] on success. *)
Fixpoint match_ci (pat s : string) : option string :=
  match pat with
  | EmptyString => Some s
  | String p pat' =>
      match s with
      | String c s' => if Ascii.eqb p (lower c) then match_ci pat' s' else None
      | EmptyString => None
      end
  end.

Definition byte_is (n : N) (c : ascii) : bool := (N_of_ascii c =? n)%N.

(** One character of the class [\s] at the head of [s]: TAB, LF, VT, FF,
    CR, SP, U+00A0, U+1680, U+2000..U+200A, U+2028, U+2029, U+202F,
    U+205F, U+3000, U+FEFF. *)
Definition ws_one (s : string) : option string :=
  match s with
  | EmptyString => None
  | String c s1 =>
      let n := N_of_ascii c in
      if ((9 <=? n) && (n <=? 13) || (n =? 32))%N then Some s1
      else match s1 with
      | EmptyString => None
      | String c2 s2 =>
          if byte_is 194 c && byte_is 160 c2 then Some s2
          else match s2 with
          | EmptyString => None
          | String c3 s3 =>
              let n3 := N_of_ascii c3 in
              if byte_is 225 c && byte_is 154 c2 && byte_is 128 c3 then Some s3
              else if byte_is 226 c && byte_is 128 c2
                      && ((128 <=? n3) && (n3 <=? 138) || (n3 =? 168)
                          || (n3 =? 169) || (n3 =? 175))%N then Some s3
              else if byte_is 226 c && byte_is 129 c2 && byte_is 159 c3 then Some s3
              else if byte_is 227 c && byte_is 128 c2 && byte_is 128 c3 then Some s3
              else if byte_is 239 c && byte_is 187 c2 && byte_is 191 c3 then Some s3
              else None
          end
      end
  end.

(** [\s*], greedy: at most [n] characters of white space are removed. *)
Fixpoint skip_ws_upto (n : nat) (s : string) : string :=
  match n with
  | O => s
  | S n' => match ws_one s with
            | Some rest => skip_ws_upto n' rest
            | None => s
            end
  end.

Definition skip_ws (s : string) : string := skip_ws_upto (String.length s) s.

(** [/^Bearer\s+/i.test(s)] *)
Definition hasBearerPrefix (s : string) : bool :=
  match match_ci "bearer" s with
  | Some rest => match ws_one rest with Some _ => true | None => false end
  | None => false
  end.

(** [s.replace(/^Bearer\s+/i, '')] *)
Definition stripBearer (s : string) : string :=
  match match_ci "bearer" s with
  | Some rest => match ws_one rest with
                 | Some rest' => skip_ws rest'
                 | None => s
                 end
  | None => s
  end.

(** [s.startsWith(p)] *)
Definition startsWith (s p : string) : bool := String.prefix p s.

(** [xs.includes(x)] on an array of strings. *)
Definition includes (xs : list string) (x : string) : bool :=
  existsb (String.eqb x) xs.

(** [!!v] for a value that is a string or absent. *)
Definition truthy (v : option string) : bool :=
  match v with
  | Some (String _ _) => true
  | _ => false
  end.

(** [v || null] *)
Definition or_null (v : option string) : option string :=
  if truthy v then v else None.

(** Whether [new Date(ms).toISOString()] returns: a time value is at
    most 8.64e15 milliseconds from the epoch. *)
Definition validDate (ms : Z) : bool :=
  (-8640000000000000 <=? ms) && (ms <=? 8640000000000000).

End Js.

(** ** Platform primitives and configuration *)

(** The primitives of [crypto], [TextEncoder] and [Buffer] that the
    token manager calls. [randomBytes k n] is the result of the [k]-th
    call of [crypto.randomBytes], asked for [n] bytes. *)
Record Platform := {
  sha256_hex : string -> string;
  hmac_sha256_base64url : string -> string -> string;
  base64url : string -> string;
  randomBytes : nat -> nat -> list N
}.

(** The configuration variables of [env]; [DEFAULT_TOKEN_EXPIRY] is
    held as the integer that [parseInt] reads from it. *)
Record Config := {
  TOKEN_SIGNING_KEY : option string;
  DEFAULT_TOKEN_EXPIRY : option Z;
  ENVIRONMENT : option string
}.

(** ** Data model *)

(** A row of the [tokens] table. *)
Record TokenRow := {
  row_id : string;
  row_token_hash : string;
  row_chitty_id : string;
  row_scope : list string;
  row_service_name : option string;
  row_created_at : Z;
  row_expires_at : Z;
  row_last_used_at : option Z;
  row_request_count : Z;
  row_revoked_at : option Z;
  row_revocation_reason : option string
}.

(** An event object passed to [logAuditEvent]. *)
Record AuditEvent := {
  eventType : string;
  ev_tokenId : option string;
  ev_chittyId : option string;
  ev_service : option string;
  ev_success : bool;
  ev_error : option string;
  ev_reason : option string;
  ev_newTokenId : option string;
  ev_timestamp : Z
}.

(** A row of the [auth_events] table, with the columns that
    [logAuditEvent] binds. *)
Record EventRow := {
  er_id : string;
  er_event_type : string;
  er_token_id : option string;
  er_chitty_id : option string;
  er_service_name : option string;
  er_success : Z;
  er_error_message : option string;
  er_timestamp : Z
}.

Record D1 := {
  tokens : list TokenRow;
  auth_events : list EventRow
}.

(** The [tokenData] object cached under [token:<hash>]. *)
Record TokenData := {
  tokenId : string;
  chittyId : string;
  scope : list string;
  service : option string;
  createdAt : Z;
  expiresAt : Z;
  requestCount : Z;
  lastUsedAt : option Z
}.

(** The object stored under [revoked:<hash>]. *)
Record Revocation := {
  rv_tokenId : string;
  rv_reason : string;
  rv_revokedAt : Z
}.

(** The bindings of [env] and the number of [crypto.randomBytes] calls
    made so far. A binding that is [None] is absent from [env]. A KV
    entry is its value and the instant at which it expires. *)
Record Env := {
  AUTH_DB : option D1;
  AUTH_TOKENS : option (gmap string (TokenData * Z));
  AUTH_REVOCATIONS : option (gmap string (Revocation * Z));
  AUTH_RATE_LIMITS : option (gmap string (Z * Z));
  AUTH_AUDIT : option (gmap string (AuditEvent * Z));
  randomCalls : nat
}.

Definition set_AUTH_DB (db : option D1) (e : Env) : Env :=
  {| AUTH_DB := db; AUTH_TOKENS := AUTH_TOKENS e;
     AUTH_REVOCATIONS := AUTH_REVOCATIONS e;
     AUTH_RATE_LIMITS := AUTH_RATE_LIMITS e; AUTH_AUDIT := AUTH_AUDIT e;
     randomCalls := randomCalls e |}.

Definition set_AUTH_TOKENS (kv : option (gmap string (TokenData * Z))) (e : Env) : Env :=
  {| AUTH_DB := AUTH_DB e; AUTH_TOKENS := kv;
     AUTH_REVOCATIONS := AUTH_REVOCATIONS e;
     AUTH_RATE_LIMITS := AUTH_RATE_LIMITS e; AUTH_AUDIT := AUTH_AUDIT e;
     randomCalls := randomCalls e |}.

Definition set_AUTH_REVOCATIONS (kv : option (gmap string (Revocation * Z))) (e : Env) : Env :=
  {| AUTH_DB := AUTH_DB e; AUTH_TOKENS := AUTH_TOKENS e;
     AUTH_REVOCATIONS := kv;
     AUTH_RATE_LIMITS := AUTH_RATE_LIMITS e; AUTH_AUDIT := AUTH_AUDIT e;
     randomCalls := randomCalls e |}.

Definition set_AUTH_RATE_LIMITS (kv : option (gmap string (Z * Z))) (e : Env) : Env :=
  {| AUTH_DB := AUTH_DB e; AUTH_TOKENS := AUTH_TOKENS e;
     AUTH_REVOCATIONS := AUTH_REVOCATIONS e;
     AUTH_RATE_LIMITS := kv; AUTH_AUDIT := AUTH_AUDIT e;
     randomCalls := randomCalls e |}.

Definition set_AUTH_AUDIT (kv : option (gmap string (AuditEvent * Z))) (e : Env) : Env :=
  {| AUTH_DB := AUTH_DB e; AUTH_TOKENS := AUTH_TOKENS e;
     AUTH_REVOCATIONS := AUTH_REVOCATIONS e;
     AUTH_RATE_LIMITS := AUTH_RATE_LIMITS e; AUTH_AUDIT := kv;
     randomCalls := randomCalls e |}.

Definition set_randomCalls (n : nat) (e : Env) : Env :=
  {| AUTH_DB := AUTH_DB e; AUTH_TOKENS := AUTH_TOKENS e;
     AUTH_REVOCATIONS := AUTH_REVOCATIONS e;
     AUTH_RATE_LIMITS := AUTH_RATE_LIMITS e; AUTH_AUDIT := AUTH_AUDIT e;
     randomCalls := n |}.

(** ** The KV namespace contract: get, put with a TTL in seconds, delete *)

Module KV.
Section Ops.
Context {V : Type}.

Definition get (kv : gmap string (V * Z)) (key : string) (now : Z) : option V :=
  match kv !! key with
  | Some (v, expiry) => if now <? expiry then Some v else None
  | None => None
  end.

Definition put (kv : gmap string (V * Z)) (key : string) (v : V)
    (expirationTtl now : Z) : gmap string (V * Z) :=
  <[key := (v, now + expirationTtl * 1000)]> kv.

Definition delete (kv : gmap string (V * Z)) (key : string) : gmap string (V * Z) :=
  base.delete key kv.
End Ops.
End KV.

(** ** Operations that return or throw, over the bindings *)

Inductive Outcome (A : Type) : Type :=
| Returned (a : A)
| Thrown (message : string).
Arguments Returned {A} a.
Arguments Thrown {A} message.

Definition M (A : Type) : Type := Env -> Outcome A * Env.

Definition ret {A} (a : A) : M A := fun e => (Returned a, e).

Definition throw {A} (message : string) : M A := fun e => (Thrown message, e).

Definition bind {A B} (c : M A) (k : A -> M B) : M B :=
  fun e => match c e with
           | (Returned a, e') => k a e'
           | (Thrown message, e') => (Thrown message, e')
           end.

Definition env : M Env := fun e => (Returned e, e).

Definition update (f : Env -> Env) : M unit := fun e => (Returned tt, f e).

Declare Scope tm_scope.
Delimit Scope tm_scope with tm.
Notation "'let*' x := c 'in' k" := (bind c (fun x => k))
  (at level 10, x name, c at level 100, k at level 200) : tm_scope.
Notation "'run' c 'then' k" := (bind c (fun _ => k))
  (at level 10, c at level 100, k at level 200) : tm_scope.

(** ** Results of the public operations *)

Record RateLimit := {
  requests : Z;
  window : string
}.

Record ProvisionInput := {
  p_chittyId : option string;
  p_scope : option (list string);
  p_service : option string;
  p_expiresIn : option Z
}.

(** [{ success: true, token, tokenId, scope, expiresAt, rateLimit }];
    [expiresAt] is kept as the instant that [toISOString] prints. *)
Record Provisioned := {
  pr_token : string;
  pr_tokenId : string;
  pr_scope : list string;
  pr_expiresAt : Z;
  pr_rateLimit : RateLimit
}.

(** [{ valid: true, ... }] *)
Record ValidToken := {
  v_tokenId : string;
  v_chittyId : string;
  v_scope : list string;
  v_service : option string;
  v_expiresAt : Z;
  v_rateLimitRemaining : Z
}.

(** What [validate] returns: [{ valid: true, ... }] or
    [{ valid: false, error }]. *)
Inductive Validation : Type :=
| Valid (v : ValidToken)
| Invalid (error : string).

(** [{ success: true, tokenId, revokedAt, reason }] *)
Record Revoked := {
  rr_tokenId : string;
  rr_revokedAt : Z;
  rr_reason : string
}.

(** What [refresh] returns: the new token or [{ success: false, error }]. *)
Inductive Refresh : Type :=
| Refreshed (p : Provisioned)
| NotRefreshed (error : string).

(** ** The token manager *)

Section TokenManager.
Variable P : Platform.
Variable cfg : Config.

Local Open Scope tm_scope.

(** The constructor: [env.TOKEN_SIGNING_KEY || '...'] and
    [parseInt(env.DEFAULT_TOKEN_EXPIRY || '2592000')]. *)
Definition signingKey : string :=
  match TOKEN_SIGNING_KEY cfg with
  | Some (String c k) => String c k
  | _ => "dev-signing-key-change-in-production"
  end.

Definition defaultExpiry : Z :=
  match DEFAULT_TOKEN_EXPIRY cfg with
  | Some n => n
  | None => 2592000
  end.

Definition chars : string :=
  "ABCDEFGHIJKLMNOPQRSTUVWXYZabcdefghijklmnopqrstuvwxyz0123456789".

(** [chars[i]] appended to a string. *)
Definition char_at (i : N) : string :=
  match String.get (N.to_nat i) chars with
  | Some c => String c EmptyString
  | None => "undefined"
  end.

Definition randomString (length : nat) : M string :=
  fun e =>
    let randomBytes := randomBytes P (randomCalls e) length in
    let result :=
      fold_left
        (fun result i =>
           result +:+ char_at (nth i randomBytes 0%N mod N.of_nat (String.length chars))%N)
        (seq 0 length) "" in
    (Returned result, set_randomCalls (S (randomCalls e)) e).

Definition generateTokenId : M string :=
  let* r := randomString 20 in
  ret ("tok_" +:+ r).

Definition signPayload (payload : string) : string :=
  String.substring 0 32 (hmac_sha256_base64url P signingKey payload).

Definition generateToken (tokenId chittyId service : string) (now : Z) : string :=
  let timestamp := now in
  let payload :=
    tokenId +:+ ":" +:+ chittyId +:+ ":" +:+ service +:+ ":" +:+ pretty timestamp in
  let signature := signPayload payload in
  let tokenData := tokenId +:+ "_" +:+ pretty timestamp +:+ "_" +:+ signature in
  let encoded := base64url P tokenData in
  let env := match ENVIRONMENT cfg with
             | Some (String c k) => String c k
             | _ => "live"
             end in
  let prefix := if String.eqb env "production" then "ca_live_"
                else "ca_" +:+ env +:+ "_" in
  prefix +:+ encoded.

Definition hashToken (token : string) : string := sha256_hex P token.

Definition isValidTokenFormat (token : string) : bool :=
  let validPrefixes := ["ca_live_"; "ca_test_"; "ca_dev_"; "svc_"] in
  existsb (fun prefix => Js.startsWith token prefix) validPrefixes.

Definition getRateLimit (scope : list string) : RateLimit :=
  if Js.includes scope "admin:*" then {| requests := 10000; window := "1h" |}
  else if Js.includes scope "service:*" then {| requests := 5000; window := "1h" |}
  else if (3 <? Z.of_nat (List.length scope)) then {| requests := 1000; window := "1h" |}
  else {| requests := 100; window := "1h" |}.

(** *** logAuditEvent *)

Definition event_row (eventId : string) (event : AuditEvent) : EventRow :=
  {| er_id := eventId;
     er_event_type := eventType event;
     er_token_id := Js.or_null (ev_tokenId event);
     er_chitty_id := Js.or_null (ev_chittyId event);
     er_service_name := Js.or_null (ev_service event);
     er_success := if ev_success event then 1 else 0;
     er_error_message := Js.or_null (ev_error event);
     er_timestamp := ev_timestamp event |}.

(** [now] is the instant of the KV write, which starts the 90 days of
    the entry. *)
Definition logAuditEvent (event : AuditEvent) (now : Z) : M unit :=
  let* r := randomString 20 in
  let eventId := "evt_" +:+ r in
  run update (fun e =>
        match AUTH_DB e with
        | Some db =>
            set_AUTH_DB
              (Some {| tokens := tokens db;
                       auth_events := auth_events db ++ [event_row eventId event] |}) e
        | None => e
        end)
  then update (fun e =>
        match AUTH_AUDIT e with
        | Some kv =>
            set_AUTH_AUDIT
              (Some (KV.put kv ("event:" +:+ eventId) event (86400 * 90) now)) e
        | None => e
        end).

(** An event object with only [eventType], [success] and [timestamp]. *)
Definition event (type : string) (success : bool) (timestamp : Z) : AuditEvent :=
  {| eventType := type; ev_tokenId := None; ev_chittyId := None;
     ev_service := None; ev_success := success; ev_error := None;
     ev_reason := None; ev_newTokenId := None; ev_timestamp := timestamp |}.

Definition with_tokenId (v : string) (ev : AuditEvent) : AuditEvent :=
  {| eventType := eventType ev; ev_tokenId := Some v; ev_chittyId := ev_chittyId ev;
     ev_service := ev_service ev; ev_success := ev_success ev; ev_error := ev_error ev;
     ev_reason := ev_reason ev; ev_newTokenId := ev_newTokenId ev;
     ev_timestamp := ev_timestamp ev |}.

Definition with_chittyId (v : string) (ev : AuditEvent) : AuditEvent :=
  {| eventType := eventType ev; ev_tokenId := ev_tokenId ev; ev_chittyId := Some v;
     ev_service := ev_service ev; ev_success := ev_success ev; ev_error := ev_error ev;
     ev_reason := ev_reason ev; ev_newTokenId := ev_newTokenId ev;
     ev_timestamp := ev_timestamp ev |}.

Definition with_service (v : string) (ev : AuditEvent) : AuditEvent :=
  {| eventType := eventType ev; ev_tokenId := ev_tokenId ev; ev_chittyId := ev_chittyId ev;
     ev_service := Some v; ev_success := ev_success ev; ev_error := ev_error ev;
     ev_reason := ev_reason ev; ev_newTokenId := ev_newTokenId ev;
     ev_timestamp := ev_timestamp ev |}.

Definition with_error (v : string) (ev : AuditEvent) : AuditEvent :=
  {| eventType := eventType ev; ev_tokenId := ev_tokenId ev; ev_chittyId := ev_chittyId ev;
     ev_service := ev_service ev; ev_success := ev_success ev; ev_error := Some v;
     ev_reason := ev_reason ev; ev_newTokenId := ev_newTokenId ev;
     ev_timestamp := ev_timestamp ev |}.

Definition with_reason (v : string) (ev : AuditEvent) : AuditEvent :=
  {| eventType := eventType ev; ev_tokenId := ev_tokenId ev; ev_chittyId := ev_chittyId ev;
     ev_service := ev_service ev; ev_success := ev_success ev; ev_error := ev_error ev;
     ev_reason := Some v; ev_newTokenId := ev_newTokenId ev;
     ev_timestamp := ev_timestamp ev |}.

Definition with_newTokenId (v : string) (ev : AuditEvent) : AuditEvent :=
  {| eventType := eventType ev; ev_tokenId := ev_tokenId ev; ev_chittyId := ev_chittyId ev;
     ev_service := ev_service ev; ev_success := ev_success ev; ev_error := ev_error ev;
     ev_reason := ev_reason ev; ev_newTokenId := Some v;
     ev_timestamp := ev_timestamp ev |}.

(** *** provision *)

(** The row that the [INSERT INTO tokens] of [provision] writes: the
    statement names seven columns, the others take their defaults. *)
Definition inserted_row (tokenId tokenHash chittyId : string)
    (scope : list string) (createdAt expiresAt : Z) : TokenRow :=
  {| row_id := tokenId; row_token_hash := tokenHash; row_chitty_id := chittyId;
     row_scope := scope; row_service_name := None;
     row_created_at := createdAt; row_expires_at := expiresAt;
     row_last_used_at := None; row_request_count := 0;
     row_revoked_at := None; row_revocation_reason := None |}.

(** The result carries [new Date(expiresAt).toISOString()], which is
    computed last, after the writes, and throws for an [expiresAt] that
    is no date; [pr_expiresAt] is the instant of that text. *)
Definition provision (x : ProvisionInput) (now : Z) : M Provisioned :=
  if negb (Js.truthy (p_chittyId x)) || negb (bool_decide (is_Some (p_scope x)))
     || negb (Js.truthy (p_service x))
  then throw "Missing required parameters: chittyId, scope, service"
  else
    let chittyId := default "" (p_chittyId x) in
    let scope := default [] (p_scope x) in
    let service := default "" (p_service x) in
    let* tokenId := generateTokenId in
    let createdAt := now in
    let expiresIn := match p_expiresIn x with
                     | Some 0 | None => defaultExpiry
                     | Some n => n
                     end in
    let expiresAt := createdAt + expiresIn * 1000 in
    let token := generateToken tokenId chittyId service now in
    let tokenHash := hashToken token in
    run update (fun e =>
          match AUTH_DB e with
          | Some db =>
              set_AUTH_DB
                (Some {| tokens := tokens db ++
                           [inserted_row tokenId tokenHash chittyId scope
                              createdAt expiresAt];
                         auth_events := auth_events db |}) e
          | None => e
          end)
    then
    run update (fun e =>
          match AUTH_TOKENS e with
          | Some kv =>
              let tokenData :=
                {| tokenId := tokenId; chittyId := chittyId; scope := scope;
                   service := Some service; createdAt := createdAt;
                   expiresAt := expiresAt; requestCount := 0;
                   lastUsedAt := None |} in
              let ttl := (expiresAt - createdAt) / 1000 in
              set_AUTH_TOKENS
                (Some (KV.put kv ("token:" +:+ tokenHash) tokenData ttl now)) e
          | None => e
          end)
    then
    let rateLimit := getRateLimit scope in
    run logAuditEvent
          (with_service service (with_chittyId chittyId (with_tokenId tokenId
             (event "token_provision" true createdAt)))) now
    then
    if Js.validDate expiresAt then
      ret {| pr_token := token; pr_tokenId := tokenId; pr_scope := scope;
             pr_expiresAt := expiresAt; pr_rateLimit := rateLimit |}
    else throw "Invalid time value".

(** *** updateTokenUsage and checkRateLimit *)

Definition used_row (now : Z) (r : TokenRow) : TokenRow :=
  {| row_id := row_id r; row_token_hash := row_token_hash r;
     row_chitty_id := row_chitty_id r; row_scope := row_scope r;
     row_service_name := row_service_name r;
     row_created_at := row_created_at r; row_expires_at := row_expires_at r;
     row_last_used_at := Some now;
     row_request_count := row_request_count r + 1;
     row_revoked_at := row_revoked_at r;
     row_revocation_reason := row_revocation_reason r |}.

Definition used_data (now : Z) (d : TokenData) : TokenData :=
  {| tokenId := tokenId d; chittyId := chittyId d; scope := scope d;
     service := service d; createdAt := createdAt d; expiresAt := expiresAt d;
     requestCount := requestCount d + 1; lastUsedAt := Some now |}.

(** [tokenData] is updated in place when the cache is bound; the
    object as it is after the call is returned. *)
Definition updateTokenUsage (tokenHash : string) (tokenData : TokenData)
    (now : Z) : M TokenData :=
  run update (fun e =>
        match AUTH_DB e with
        | Some db =>
            set_AUTH_DB
              (Some {| tokens :=
                         map (fun r => if String.eqb (row_token_hash r) tokenHash
                                       then used_row now r else r) (tokens db);
                       auth_events := auth_events db |}) e
        | None => e
        end)
  then
  let* e := env in
  match AUTH_TOKENS e with
  | Some kv =>
      let tokenData := used_data now tokenData in
      let ttl := (expiresAt tokenData - now) / 1000 in
      run (if 0 <? ttl
           then update (set_AUTH_TOKENS
                          (Some (KV.put kv ("token:" +:+ tokenHash) tokenData ttl now)))
           else ret tt)
      then ret tokenData
  | None => ret tokenData
  end.

Definition checkRateLimit (tokenHash : string) (tokenData : TokenData)
    (now_ms : Z) : M Z :=
  let* e := env in
  match AUTH_RATE_LIMITS e with
  | None => ret 999
  | Some kv =>
      let window := 3600 in
      let now := now_ms / 1000 in
      let windowStart := now - window in
      let rateLimit := getRateLimit (scope tokenData) in
      let key := "ratelimit:" +:+ tokenHash +:+ ":" +:+ pretty windowStart in
      let current := KV.get kv key now_ms in
      let count := match current with Some n => n | None => 0 end in
      if requests rateLimit <=? count then throw "Rate limit exceeded"
      else
        run update (set_AUTH_RATE_LIMITS
                      (Some (KV.put kv key (count + 1) window now_ms)))
        then ret (requests rateLimit - count - 1)
  end.

(** *** validate *)

Definition row_data (result : TokenRow) : TokenData :=
  {| tokenId := row_id result; chittyId := row_chitty_id result;
     scope := row_scope result; service := row_service_name result;
     createdAt := row_created_at result; expiresAt := row_expires_at result;
     requestCount := row_request_count result; lastUsedAt := None |}.

(** [SELECT * FROM tokens WHERE token_hash = ? AND revoked_at IS NULL] *)
Definition select_active (tokenHash : string) (db : D1) : option TokenRow :=
  find (fun r => String.eqb (row_token_hash r) tokenHash
                 && match row_revoked_at r with None => true | Some _ => false end)
       (tokens db).

(** The cache first, the table when the cache has no entry. *)
Definition lookup (tokenHash : string) (now : Z) (e : Env) : option TokenData :=
  let cached := match AUTH_TOKENS e with
                | Some kv => KV.get kv ("token:" +:+ tokenHash) now
                | None => None
                end in
  match cached with
  | Some tokenData => Some tokenData
  | None => match AUTH_DB e with
            | Some db => row_data <$> select_active tokenHash db
            | None => None
            end
  end.

(** [token] is [None] for an argument that is not a string. *)
Definition validate (token : option string) (now : Z) : M Validation :=
  match token with
  | None | Some EmptyString => ret (Invalid "Invalid token format")
  | Some token =>
    let token := Js.stripBearer token in
    if negb (isValidTokenFormat token) then ret (Invalid "Invalid token format")
    else
      let tokenHash := hashToken token in
      let* e := env in
      let revoked := match AUTH_REVOCATIONS e with
                     | Some kv => KV.get kv ("revoked:" +:+ tokenHash) now
                     | None => None
                     end in
      match revoked with
      | Some _ =>
          run logAuditEvent
                (with_error "Token revoked"
                   (event "token_validation_failed" false now)) now
          then ret (Invalid "Token has been revoked")
      | None =>
          match lookup tokenHash now e with
          | None =>
              run logAuditEvent
                    (with_error "Token not found"
                       (event "token_validation_failed" false now)) now
              then ret (Invalid "Token not found")
          | Some tokenData =>
              if expiresAt tokenData <? now then
                run logAuditEvent
                      (with_error "Token expired" (with_tokenId (tokenId tokenData)
                         (event "token_validation_failed" false now))) now
                then ret (Invalid "Token has expired")
              else
                let* tokenData := updateTokenUsage tokenHash tokenData now in
                let* rateLimitRemaining := checkRateLimit tokenHash tokenData now in
                run logAuditEvent
                      (with_chittyId (chittyId tokenData) (with_tokenId (tokenId tokenData)
                         (event "token_validated" true now))) now
                then
                ret (Valid {| v_tokenId := tokenId tokenData;
                              v_chittyId := chittyId tokenData;
                              v_scope := scope tokenData;
                              v_service := service tokenData;
                              v_expiresAt := expiresAt tokenData;
                              v_rateLimitRemaining := rateLimitRemaining |})
          end
      end
  end.

(** *** revoke and refresh *)

Definition revoked_row (now : Z) (r : TokenRow) : TokenRow :=
  {| row_id := row_id r; row_token_hash := row_token_hash r;
     row_chitty_id := row_chitty_id r; row_scope := row_scope r;
     row_service_name := row_service_name r;
     row_created_at := row_created_at r; row_expires_at := row_expires_at r;
     row_last_used_at := row_last_used_at r;
     row_request_count := row_request_count r;
     row_revoked_at := Some now;
     row_revocation_reason := row_revocation_reason r |}.

(** [UPDATE tokens SET revoked_at = ? WHERE id = ?] *)
Definition update_revoked_at (now : Z) (tokenId : string) (db : D1) : D1 :=
  {| tokens := map (fun r => if String.eqb (row_id r) tokenId
                             then revoked_row now r else r) (tokens db);
     auth_events := auth_events db |}.

(** [SELECT token_hash FROM tokens WHERE id = ?] *)
Definition select_token_hash (tokenId : string) (db : D1) : option string :=
  row_token_hash <$> find (fun r => String.eqb (row_id r) tokenId) (tokens db).

(** [reason] is [None] when the argument is left out. *)
Definition revoke (tokenId : string) (reason : option string) (now : Z) : M Revoked :=
  let reason := default "Manual revocation" reason in
  let* e := env in
  run match AUTH_DB e with
      | Some db =>
          let db := update_revoked_at now tokenId db in
          run update (set_AUTH_DB (Some db)) then
          match select_token_hash tokenId db with
          | Some token_hash =>
              run update (fun e =>
                    match AUTH_REVOCATIONS e with
                    | Some kv =>
                        set_AUTH_REVOCATIONS
                          (Some (KV.put kv ("revoked:" +:+ token_hash)
                                   {| rv_tokenId := tokenId; rv_reason := reason;
                                      rv_revokedAt := now |}
                                   (86400 * 90) now)) e
                    | None => e
                    end)
              then update (fun e =>
                    match AUTH_TOKENS e with
                    | Some kv =>
                        set_AUTH_TOKENS
                          (Some (KV.delete kv ("token:" +:+ token_hash))) e
                    | None => e
                    end)
          | None => ret tt
          end
      | None => ret tt
      end
  then
  run logAuditEvent
        (with_reason reason (with_tokenId tokenId (event "token_revoked" true now))) now
  then
  ret {| rr_tokenId := tokenId; rr_revokedAt := now; rr_reason := reason |}.

Definition refresh (token : option string) (expiresIn : option Z) (now : Z) : M Refresh :=
  let* validation := validate token now in
  match validation with
  | Invalid error => ret (NotRefreshed error)
  | Valid validation =>
      run revoke (v_tokenId validation) (Some "Token refreshed") now then
      let* newToken :=
        provision {| p_chittyId := Some (v_chittyId validation);
                     p_scope := Some (v_scope validation);
                     p_service := v_service validation;
                     p_expiresIn := expiresIn |} now in
      run logAuditEvent
            (with_chittyId (v_chittyId validation)
               (with_newTokenId (pr_tokenId newToken)
                  (with_tokenId (v_tokenId validation)
                     (event "token_refreshed" true now)))) now
      then ret (Refreshed newToken)
  end.

End TokenManager.

(** [validate(token)] called once at each of the instants [times]. *)
Fixpoint validations (P : Platform) (token : option string) (times : list Z)
    (e : Env) : list (Outcome Validation) * Env :=
  match times with
  | [] => ([], e)
  | now :: times' =>
      let (o, e1) := validate P token now e in
      let (os, e2) := validations P token times' e1 in
      (o :: os, e2)
  end.

(** The messages of the failures that [validate] returns. *)
Definition validationErrors : list string :=
  ["Invalid token format"; "Token has been revoked"; "Token not found";
   "Token has expired"].

(** ** Statistics: [getStats] *)

Record Stats := {
  totalTokens : Z;
  activeTokens : Z;
  revokedTokens : Z;
  expiredTokens : Z;
  requestsToday : Z
}.

(** What [getStats] returns: [{ error }] or the five counts. *)
Inductive StatsResult : Type :=
| StatsError (error : string)
| StatsCounts (stats : Stats).

(** [SUM(CASE WHEN p THEN 1 ELSE 0 END)] over the rows, with [|| 0] for
    the [NULL] of an empty table. *)
Definition sum_case (p : TokenRow -> bool) (rows : list TokenRow) : Z :=
  fold_right (fun r total => (if p r then 1 else 0) + total) 0 rows.

(** [SELECT SUM(request_count) ... WHERE last_used_at >= ?], with [|| 0]. *)
Definition sum_requests_since (since : Z) (rows : list TokenRow) : Z :=
  fold_right
    (fun r total =>
       match row_last_used_at r with
       | Some used => if since <=? used then row_request_count r + total else total
       | None => total
       end) 0 rows.

Definition is_null (v : option Z) : bool :=
  match v with None => true | Some _ => false end.

Definition getStats (now : Z) (e : Env) : StatsResult :=
  match AUTH_DB e with
  | None => StatsError "Database not available"
  | Some db =>
      StatsCounts
        {| totalTokens := Z.of_nat (List.length (tokens db));
           activeTokens :=
             sum_case (fun r => is_null (row_revoked_at r) && (now <? row_expires_at r))
               (tokens db);
           revokedTokens := sum_case (fun r => negb (is_null (row_revoked_at r))) (tokens db);
           expiredTokens := sum_case (fun r => row_expires_at r <=? now) (tokens db);
           requestsToday := sum_requests_since (now - 86400000) (tokens db) |}
  end.

(** ** The router's scope check: [validateScopes] *)

Module Router.

(** The text of [s] before its first colon: [s.split(':')[0]]. *)
Fixpoint before_colon (s : string) : string :=
  match s with
  | EmptyString => EmptyString
  | String c rest =>
      if Ascii.eqb c ":" then EmptyString else String c (before_colon rest)
  end.

(** The text of [s] after its first colon, when it has one. *)
Fixpoint after_colon (s : string) : option string :=
  match s with
  | EmptyString => None
  | String c rest => if Ascii.eqb c ":" then Some rest else after_colon rest
  end.

(** [const [service, action] = scope.split(':')] and
    [`${service}.${action}`]: a missing action prints as [undefined]. *)
Definition permissionKey (scope : string) : string :=
  let service := before_colon scope in
  let action := before_colon <$> after_colon scope in
  service +:+ "." +:+ default "undefined" action.

Definition wildcardKey (scope : string) : string :=
  before_colon scope +:+ ".*".

(** The body of the loop of [validateScopes] for one scope. *)
Definition validateScope (permissions : list string) (authorizedScopes : list string)
    (scope : string) : list string :=
  if String.eqb scope "admin:*" then
    if Js.includes permissions "admin" then (authorizedScopes ++ [scope])%list
    else authorizedScopes
  else if Js.includes permissions (permissionKey scope)
          || Js.includes permissions (wildcardKey scope)
       then (authorizedScopes ++ [scope])%list
       else authorizedScopes.

(** [permissions] is the array [permissions.permissions]. *)
Definition validateScopes (requestedScopes permissions : list string) : list string :=
  fold_left (validateScope permissions) requestedScopes [].

End Router.

(** ** The router's handlers *)

(** A response of [jsonResponse(data, status)]. *)
Record Response (B : Type) : Type := {
  status : Z;
  body : B
}.
Arguments status {B} r.
Arguments body {B} r.





(** The bodies of [handleStats]: [{ success: false, error }] and
    [{ success: true, ...stats }]. *)
Inductive StatsBody : Type :=
| StatsFailure (error : string)
| StatsSuccess (stats : StatsResult).

(** The bodies of [handleProvision]. *)
Inductive ProvisionBody : Type :=
| ProvisionFailure (error : string)
| VerificationFailure (details : option string)
| NoAuthorizedScopes (requestedScopes availablePermissions : list string)
| ProvisionResult (result : Provisioned).

(** What [verifyChittyID] answered. *)
Record Verification := {
  verified : bool;
  verification_error : option string
}.

Section Handlers.
Variable P : Platform.
Variable cfg : Config.


(** [handleStats], from the [Authorization] header. *)
Definition handleStats (authHeader : option string) (now : Z) (e : Env)
  : Response StatsBody * Env :=
  if negb (Js.truthy authHeader) then
    ({| status := 401; body := StatsFailure "Authorization required" |}, e)
  else
    match validate P authHeader now e with
    | (Returned (Invalid _), e') =>
        ({| status := 403; body := StatsFailure "Admin access required" |}, e')
    | (Returned (Valid validation), e') =>
        if negb (Js.includes (v_scope validation) "admin:*") then
          ({| status := 403; body := StatsFailure "Admin access required" |}, e')
        else
          ({| status := 200; body := StatsSuccess (getStats now e') |}, e')
    | (Thrown message, e') =>
        ({| status := 500; body := StatsFailure message |}, e')
    end.

(** [handleProvision], from the parsed body and from what
    [verifyChittyID] and [getUserPermissions] answered. *)
Definition handleProvision (x : ProvisionInput) (verification : Verification)
    (permissions : list string) (now : Z) (e : Env) : Response ProvisionBody * Env :=
  if negb (Js.truthy (p_chittyId x)) || negb (bool_decide (is_Some (p_scope x)))
     || negb (Js.truthy (p_service x))
  then
    ({| status := 400;
        body := ProvisionFailure "Missing required fields: chittyId, scope, service" |}, e)
  else if negb (verified verification) then
    ({| status := 403; body := VerificationFailure (verification_error verification) |}, e)
  else
    let scope := default [] (p_scope x) in
    let authorizedScopes := Router.validateScopes scope permissions in
    if (List.length authorizedScopes =? 0)%nat then
      ({| status := 403; body := NoAuthorizedScopes scope permissions |}, e)
    else
      match provision P cfg
              {| p_chittyId := p_chittyId x; p_scope := Some authorizedScopes;
                 p_service := p_service x; p_expiresIn := p_expiresIn x |} now e with
      | (Returned result, e') => ({| status := 201; body := ProvisionResult result |}, e')
      | (Thrown message, e') => ({| status := 500; body := ProvisionFailure message |}, e')
      end.

End Handlers.

(** ** [ChittyConnectClient.getRecommendedScopes] *)

(** [permissions] is the array that [getUserPermissions] answered. *)
Definition getRecommendedScopes (permissions : list string) (requestedService : string)
  : list string :=
  let scopes :=
    if String.eqb requestedService "chittyid" then
      ((if Js.includes permissions "chittyid.read" then ["chittyid:read"] else [])
       ++ (if Js.includes permissions "chittyid.generate" then ["chittyid:generate"] else [])
       ++ (if Js.includes permissions "chittyid.validate" then ["chittyid:validate"] else [])
       ++ (if Js.includes permissions "chittyid.admin"
           then ["chittyid:audit"; "admin:*"] else []))%list
    else [] in
  match scopes with
  | [] => [requestedService +:+ ":read"]
  | _ => scopes
  end.

(** ** [RegistrationHandler.mod97Checksum] *)

(** The loop of [mod97Checksum], from the running [checksum]. *)
Fixpoint mod97_from (checksum : Z) (str : string) : Z :=
  match str with
  | EmptyString => checksum
  | String char rest =>
      let code := Z.of_N (N_of_ascii char) in
      if (48 <=? code) && (code <=? 57) then
        mod97_from ((checksum * 10 + (code - 48)) mod 97) rest
      else if (65 <=? code) && (code <=? 90) then
        mod97_from ((checksum * 100 + (code - 55)) mod 97) rest
      else mod97_from checksum rest
  end.

Definition mod97Checksum (str : string) : Z := (98 - mod97_from 0 str) mod 97.

(** The characters that [mod97Checksum] reads: digits and capitals. *)
Definition counted (char : ascii) : bool :=
  let code := Z.of_N (N_of_ascii char) in
  (48 <=? code) && (code <=? 57) || (65 <=? code) && (code <=? 90).

Fixpoint only_counted (str : string) : string :=
  match str with
  | EmptyString => EmptyString
  | String char rest =>
      if counted char then String char (only_counted rest) else only_counted rest
  end.

(** ** Character classes of strings *)

Fixpoint all_chars (p : ascii -> bool) (s : string) : bool :=
  match s with
  | EmptyString => true
  | String c rest => p c && all_chars p rest
  end.

(** A character of [A-Za-z0-9]. *)
Definition alphanumeric (c : ascii) : bool :=
  let n := N_of_ascii c in
  ((48 <=? n) && (n <=? 57) || (65 <=? n) && (n <=? 90) || (97 <=? n) && (n <=? 122))%N.

(** ** Notions used in the statements *)

(** The bindings after [logAuditEvent]. *)
Definition logged (P : Platform) (ev : AuditEvent) (now : Z) (e : Env) : Env :=
  snd (logAuditEvent P ev now e).

(** The events recorded in the table. *)
Definition events (e : Env) : list EventRow :=
  match AUTH_DB e with
  | Some db => auth_events db
  | None => []
  end.

(** The revocation marker that [validate] reads for a hash. *)
Definition marker (tokenHash : string) (now : Z) (e : Env) : option Revocation :=
  match AUTH_REVOCATIONS e with
  | Some kv => KV.get kv ("revoked:" +:+ tokenHash) now
  | None => None
  end.

(** The event of a failed validation. *)
Definition failure (error : string) (now : Z) : AuditEvent :=
  with_error error (event "token_validation_failed" false now).

(** Past the expiry gate: usage is updated, then the rate limit is
    checked, then the success is logged. *)
Definition accepted_token (P : Platform) (tokenHash : string) (tokenData : TokenData) (now : Z)
  : M Validation :=
  (let* tokenData := updateTokenUsage tokenHash tokenData now in
   let* rateLimitRemaining := checkRateLimit tokenHash tokenData now in
   run logAuditEvent P
         (with_chittyId (chittyId tokenData) (with_tokenId (tokenId tokenData)
            (event "token_validated" true now))) now
   then
   ret (Valid {| v_tokenId := tokenId tokenData;
                 v_chittyId := chittyId tokenData;
                 v_scope := scope tokenData;
                 v_service := service tokenData;
                 v_expiresAt := expiresAt tokenData;
                 v_rateLimitRemaining := rateLimitRemaining |}))%tm.

(** The counter that [checkRateLimit] reads. *)
Definition rateLimitKey (tokenHash : string) (now_ms : Z) : string :=
  "ratelimit:" +:+ tokenHash +:+ ":" +:+ pretty (now_ms / 1000 - 3600).

Definition currentCount (tokenHash : string) (now_ms : Z) (e : Env) : Z :=
  match AUTH_RATE_LIMITS e with
  | Some kv => default 0 (KV.get kv (rateLimitKey tokenHash now_ms) now_ms)
  | None => 0
  end.

(** What [validate] reports for a token past the expiry gate. *)
Definition report (tokenData : TokenData) (rateLimitRemaining : Z) : ValidToken :=
  {| v_tokenId := tokenId tokenData;
     v_chittyId := chittyId tokenData;
     v_scope := scope tokenData;
     v_service := service tokenData;
     v_expiresAt := expiresAt tokenData;
     v_rateLimitRemaining := rateLimitRemaining |}.

(** The cache entry that [provision] writes for its result. *)
Definition provisioned_data (x : ProvisionInput) (now : Z) (r : Provisioned) : TokenData :=
  {| tokenId := pr_tokenId r;
     chittyId := default "" (p_chittyId x);
     scope := pr_scope r;
     service := Some (default "" (p_service x));
     createdAt := now;
     expiresAt := pr_expiresAt r;
     requestCount := 0;
     lastUsedAt := None |}.

(** The expiry that [provision] computes: [createdAt + (expiresIn ||
    this.defaultExpiry) * 1000]. *)
Definition provisionExpiry (cfg : Config) (x : ProvisionInput) (now : Z) : Z :=
  now + match p_expiresIn x with
        | Some 0 | None => defaultExpiry cfg
        | Some n => n
        end * 1000.

(** The marker that [revoke] writes. *)
Definition revocation (tokenId : string) (reason : option string) (now : Z) : Revocation :=
  {| rv_tokenId := tokenId;
     rv_reason := default "Manual revocation" reason;
     rv_revokedAt := now |}.

(** The calls that may come between a revocation and a validation, and
    a change of the token cache behind the back of the manager (entries
    dropped, kept or left stale). *)
Inductive Call : Type :=
| CallProvision (x : ProvisionInput)
| CallValidate (token : option string)
| CallRevoke (tokenId : string) (reason : option string)
| CallRefresh (token : option string) (expiresIn : option Z)
| CacheChange (cache : gmap string (TokenData * Z)).

Definition after_call (P : Platform) (cfg : Config) (now : Z) (c : Call) (e : Env) : Env :=
  match c with
  | CallProvision x => snd (provision P cfg x now e)
  | CallValidate token => snd (validate P token now e)
  | CallRevoke tokenId reason => snd (revoke P tokenId reason now e)
  | CallRefresh token expiresIn => snd (refresh P cfg token expiresIn now e)
  | CacheChange cache =>
      match AUTH_TOKENS e with
      | Some _ => set_AUTH_TOKENS (Some cache) e
      | None => e
      end
  end.

(** The bindings after a history of calls, each made at its instant. *)
Fixpoint after_calls (P : Platform) (cfg : Config) (history : list (Z * Call))
    (e : Env) : Env :=
  match history with
  | [] => e
  | (now, c) :: history' => after_calls P cfg history' (after_call P cfg now c e)
  end.

(** The marker under [key] is in place and expires no sooner than [deadline]. *)
Definition marker_until (key : string) (deadline : Z) (e : Env) : Prop :=
  exists kv v expiry,
    AUTH_REVOCATIONS e = Some kv /\ kv !! key = Some (v, expiry) /\ deadline <= expiry.

(** ** Notions of the further properties *)

(** Whether the loop of [validateScopes] keeps a scope. *)
Definition authorised (permissions : list string) (scope : string) : bool :=
  if String.eqb scope "admin:*" then Js.includes permissions "admin"
  else Js.includes permissions (Router.permissionKey scope)
       || Js.includes permissions (Router.wildcardKey scope).

(** The rows of the table after one use of the token with hash
    [tokenHash] at [now]. *)
Definition used_rows (tokenHash : string) (now : Z) (db : D1) : list TokenRow :=
  map (fun r => if String.eqb (row_token_hash r) tokenHash then used_row now r else r)
      (tokens db).

(** A record after some calls: the same token, used at least as often,
    and still revoked when it was. *)
Definition row_kept (r r' : TokenRow) : Prop :=
  row_id r' = row_id r
  /\ row_token_hash r' = row_token_hash r
  /\ row_chitty_id r' = row_chitty_id r
  /\ row_scope r' = row_scope r
  /\ row_service_name r' = row_service_name r
  /\ row_created_at r' = row_created_at r
  /\ row_expires_at r' = row_expires_at r
  /\ row_request_count r <= row_request_count r'
  /\ (row_revoked_at r <> None -> row_revoked_at r' <> None).

(** Every record is kept, in place; records are added at the end only. *)
Definition rows_kept (rows rows' : list TokenRow) : Prop :=
  exists kept added, rows' = (kept ++ added)%list /\ Forall2 row_kept rows kept.

(** The table binding stays as it is, its token records are kept and
    its audit rows are a prefix of the later ones. *)
Definition table_kept (e e' : Env) : Prop :=
  match AUTH_DB e, AUTH_DB e' with
  | Some db, Some db' =>
      rows_kept (tokens db) (tokens db') /\ auth_events db `prefix_of` auth_events db'
  | None, None => True
  | _, _ => False
  end.

(** A computation that keeps a relation between the bindings before
    and after it, whether it returns or throws. *)
Definition preserves (R : Env -> Env -> Prop) {A} (c : M A) : Prop :=
  forall e, R e (snd (c e)).

(** ** A platform and bindings to run the operations on *)

Module Sample.

(** Stand-ins for the primitives: the digest of a token is the token
    itself, a signature is the key followed by the payload, and the
    [k]-th call of [randomBytes] returns the byte [k], repeated. *)
Definition platform : Platform :=
  {| sha256_hex := fun token => token;
     hmac_sha256_base64url := fun key payload => key +:+ payload;
     base64url := fun data => data;
     randomBytes := fun k n => repeat (N.of_nat k) n |}.

Definition config : Config :=
  {| TOKEN_SIGNING_KEY := Some "test-signing-key-for-unit-tests-only";
     DEFAULT_TOKEN_EXPIRY := Some 3600;
     ENVIRONMENT := None |}.

(** All five bindings present and empty, as in the unit tests. *)
Definition fresh : Env :=
  {| AUTH_DB := Some {| tokens := []; auth_events := [] |};
     AUTH_TOKENS := Some ∅;
     AUTH_REVOCATIONS := Some ∅;
     AUTH_RATE_LIMITS := Some ∅;
     AUTH_AUDIT := Some ∅;
     randomCalls := 0 |}.

Definition input : ProvisionInput :=
  {| p_chittyId := Some "03-1-USA-0001-P-251-3-82";
     p_scope := Some ["chittyid:read"];
     p_service := Some "chittyid";
     p_expiresIn := Some 3600 |}.

(** The documented development configuration. *)
Definition development : Config :=
  {| TOKEN_SIGNING_KEY := Some "test-signing-key-for-unit-tests-only";
     DEFAULT_TOKEN_EXPIRY := Some 3600;
     ENVIRONMENT := Some "development" |}.

(** The bindings of [fresh] without the token cache. *)
Definition uncached : Env :=
  {| AUTH_DB := Some {| tokens := []; auth_events := [] |};
     AUTH_TOKENS := None;
     AUTH_REVOCATIONS := Some ∅;
     AUTH_RATE_LIMITS := Some ∅;
     AUTH_AUDIT := Some ∅;
     randomCalls := 0 |}.

(** An instant of the clock, the start of a clock hour:
    2024-11-02T11:00:00Z in milliseconds. *)
Definition t0 : Z := 1730545200000.

(** [provision(input)] at [t0] on the fresh bindings. *)
Definition issue : Outcome Provisioned * Env := provision platform config input t0 fresh.

Definition issued : Env := snd issue.

(** A provisioning result to build token data from. *)
Definition provisioned : Provisioned :=
  {| pr_token := "ca_live_sample"; pr_tokenId := "tok_sample";
     pr_scope := ["chittyid:read"]; pr_expiresAt := 1730548800000;
     pr_rateLimit := {| requests := 100; window := "1h" |} |}.

Definition token : string :=
  match fst issue with
  | Returned r => pr_token r
  | Thrown _ => ""
  end.

Definition token_id : string :=
  match fst issue with
  | Returned r => pr_tokenId r
  | Thrown _ => ""
  end.

(** The bindings after one validation of [token] half a second after
    [t0]: the cache entry is rewritten and ends 3599 seconds later. *)
Definition drifted : Env :=
  snd (validate platform (Some token) (t0 + 500) issued).

(** What [validate] reports for [token], read from the table, 300 ms
    before it expires. *)
Definition served : ValidToken :=
  match fst (validate platform (Some token) (t0 + 3599700) drifted) with
  | Returned (Valid v) => v
  | _ => {| v_tokenId := ""; v_chittyId := ""; v_scope := []; v_service := None;
            v_expiresAt := 0; v_rateLimitRemaining := 0 |}
  end.

(** [provision] of a token with the scope [admin:*] at [t0] on the
    fresh bindings. *)
Definition admin_issue : Outcome Provisioned * Env :=
  provision platform config
    {| p_chittyId := Some "03-1-USA-0001-P-251-3-82"; p_scope := Some ["admin:*"];
       p_service := Some "chittyauth"; p_expiresIn := Some 3600 |} t0 fresh.

Definition admin_token : string :=
  match fst admin_issue with
  | Returned r => pr_token r
  | Thrown _ => ""
  end.

(** The bindings after a hundred validations of [token] within the
    second that starts at [t0]. *)
Definition exhausted : Env :=
  snd (validations platform (Some token) (repeat t0 100) issued).

End Sample.

(** * Properties *)

(** ** What [logAuditEvent] changes *)

Section Audit.
Variable P : Platform.

Lemma logAuditEvent_returns ev now e :
  logAuditEvent P ev now e = (Returned tt, logged P ev now e).
Proof. reflexivity. Qed.

Lemma logged_tokens ev now e :
  tokens <$> AUTH_DB (logged P ev now e) = tokens <$> AUTH_DB e.
Proof.
  destruct e as [[db|] tk rv rl [au|] n]; reflexivity.
Qed.

Lemma logged_AUTH_TOKENS ev now e :
  AUTH_TOKENS (logged P ev now e) = AUTH_TOKENS e.
Proof.
  destruct e as [[db|] tk rv rl [au|] n]; reflexivity.
Qed.

Lemma logged_AUTH_REVOCATIONS ev now e :
  AUTH_REVOCATIONS (logged P ev now e) = AUTH_REVOCATIONS e.
Proof.
  destruct e as [[db|] tk rv rl [au|] n]; reflexivity.
Qed.

Lemma logged_AUTH_RATE_LIMITS ev now e :
  AUTH_RATE_LIMITS (logged P ev now e) = AUTH_RATE_LIMITS e.
Proof.
  destruct e as [[db|] tk rv rl [au|] n]; reflexivity.
Qed.

Lemma logged_events ev now e db :
  AUTH_DB e = Some db ->
  exists eventId, events (logged P ev now e) = (auth_events db ++ [event_row eventId ev])%list.
Proof.
  destruct e as [db' tk rv rl [au|] n]; simpl; intros ->; eexists; reflexivity.
Qed.
End Audit.

Arguments logAuditEvent : simpl never.

(** ** The branches of [validate] *)

Section Branches.
Variable P : Platform.

Lemma wellformed_nonempty tok :
  isValidTokenFormat (Js.stripBearer tok) = true -> tok <> "".
Proof. intros H ->. discriminate H. Qed.

Lemma validate_malformed tok now e :
  isValidTokenFormat (Js.stripBearer tok) = false ->
  validate P (Some tok) now e = (Returned (Invalid "Invalid token format"), e).
Proof.
  intros H. unfold validate. destruct tok as [|c s]; [reflexivity|].
  rewrite H. reflexivity.
Qed.

Lemma validate_revoked tok now e r :
  isValidTokenFormat (Js.stripBearer tok) = true ->
  marker (hashToken P (Js.stripBearer tok)) now e = Some r ->
  validate P (Some tok) now e =
    (Returned (Invalid "Token has been revoked"),
     logged P (failure "Token revoked" now) now e).
Proof.
  intros H Hm. unfold validate. destruct tok as [|c s]; [discriminate H|].
  rewrite H. cbn [negb]. unfold bind at 1. cbn [env].
  unfold marker in Hm. rewrite Hm. reflexivity.
Qed.

Lemma validate_not_found tok now e :
  isValidTokenFormat (Js.stripBearer tok) = true ->
  marker (hashToken P (Js.stripBearer tok)) now e = None ->
  lookup (hashToken P (Js.stripBearer tok)) now e = None ->
  validate P (Some tok) now e =
    (Returned (Invalid "Token not found"),
     logged P (failure "Token not found" now) now e).
Proof.
  intros H Hm Hl. unfold validate. destruct tok as [|c s]; [discriminate H|].
  rewrite H. cbn [negb]. unfold bind at 1. cbn [env].
  unfold marker in Hm. rewrite Hm, Hl. reflexivity.
Qed.

Lemma validate_expired tok now e tokenData :
  isValidTokenFormat (Js.stripBearer tok) = true ->
  marker (hashToken P (Js.stripBearer tok)) now e = None ->
  lookup (hashToken P (Js.stripBearer tok)) now e = Some tokenData ->
  (expiresAt tokenData <? now) = true ->
  validate P (Some tok) now e =
    (Returned (Invalid "Token has expired"),
     logged P (with_tokenId (tokenId tokenData) (failure "Token expired" now)) now e).
Proof.
  intros H Hm Hl Hx. unfold validate. destruct tok as [|c s]; [discriminate H|].
  rewrite H. cbn [negb]. unfold bind at 1. cbn [env].
  unfold marker in Hm. rewrite Hm, Hl, Hx. reflexivity.
Qed.

Lemma validate_accepted tok now e tokenData :
  isValidTokenFormat (Js.stripBearer tok) = true ->
  marker (hashToken P (Js.stripBearer tok)) now e = None ->
  lookup (hashToken P (Js.stripBearer tok)) now e = Some tokenData ->
  (expiresAt tokenData <? now) = false ->
  validate P (Some tok) now e =
    accepted_token P (hashToken P (Js.stripBearer tok)) tokenData now e.
Proof.
  intros H Hm Hl Hx. unfold validate. destruct tok as [|c s]; [discriminate H|].
  rewrite H. cbn [negb]. unfold bind at 1. cbn [env].
  unfold marker in Hm. rewrite Hm, Hl, Hx. reflexivity.
Qed.

(** [updateTokenUsage] returns, keeps what identifies the token, and
    writes only the table and the cache. *)
Lemma updateTokenUsage_returns tokenHash tokenData now e :
  exists tokenData' e',
    updateTokenUsage tokenHash tokenData now e = (Returned tokenData', e')
    /\ tokenId tokenData' = tokenId tokenData
    /\ chittyId tokenData' = chittyId tokenData
    /\ scope tokenData' = scope tokenData
    /\ service tokenData' = service tokenData
    /\ expiresAt tokenData' = expiresAt tokenData
    /\ AUTH_REVOCATIONS e' = AUTH_REVOCATIONS e
    /\ AUTH_RATE_LIMITS e' = AUTH_RATE_LIMITS e
    /\ events e' = events e
    /\ AUTH_AUDIT e' = AUTH_AUDIT e.
Proof.
  unfold updateTokenUsage, bind, update, env, ret.
  destruct e as [[db|] [tk|] rv rl au n]; cbn;
    try destruct (0 <? _); cbn; eexists _, _; repeat split; reflexivity.
Qed.

Lemma checkRateLimit_unbound tokenHash tokenData now e :
  AUTH_RATE_LIMITS e = None ->
  checkRateLimit tokenHash tokenData now e = (Returned 999, e).
Proof. intros H. unfold checkRateLimit, bind, env. rewrite H. reflexivity. Qed.

Lemma checkRateLimit_exceeded tokenHash tokenData now e kv :
  AUTH_RATE_LIMITS e = Some kv ->
  requests (getRateLimit (scope tokenData)) <= currentCount tokenHash now e ->
  checkRateLimit tokenHash tokenData now e = (Thrown "Rate limit exceeded", e).
Proof.
  intros H Hc. unfold currentCount, rateLimitKey in Hc.
  unfold checkRateLimit, bind, env. rewrite H in *. cbn.
  destruct (KV.get kv _ now) as [count|]; cbn in *;
    (destruct (Z.leb_spec (requests (getRateLimit (scope tokenData))) count)
       || destruct (Z.leb_spec (requests (getRateLimit (scope tokenData))) 0));
    (reflexivity || lia).
Qed.

Lemma checkRateLimit_counted tokenHash tokenData now e kv :
  AUTH_RATE_LIMITS e = Some kv ->
  currentCount tokenHash now e < requests (getRateLimit (scope tokenData)) ->
  checkRateLimit tokenHash tokenData now e =
    (Returned (requests (getRateLimit (scope tokenData)) - currentCount tokenHash now e - 1),
     set_AUTH_RATE_LIMITS
       (Some (KV.put kv (rateLimitKey tokenHash now)
                (currentCount tokenHash now e + 1) 3600 now)) e).
Proof.
  intros H Hc. unfold currentCount, rateLimitKey in *.
  unfold checkRateLimit, bind, env, update. rewrite H in *. cbn.
  destruct (KV.get kv _ now) as [count|]; cbn in *;
    (destruct (Z.leb_spec (requests (getRateLimit (scope tokenData))) count)
       || destruct (Z.leb_spec (requests (getRateLimit (scope tokenData))) 0));
    (reflexivity || lia).
Qed.
End Branches.

(** ** Failures of [validate] *)

Section Failures.
Variable P : Platform.

(** Every call of [validate] falls in one of its five branches. *)
Lemma validate_branches tok now e :
  let t := Js.stripBearer tok in
  let h := hashToken P t in
  (isValidTokenFormat t = false
   /\ validate P (Some tok) now e = (Returned (Invalid "Invalid token format"), e))
  \/ (exists r, marker h now e = Some r
      /\ validate P (Some tok) now e =
           (Returned (Invalid "Token has been revoked"),
            logged P (failure "Token revoked" now) now e))
  \/ (marker h now e = None /\ lookup h now e = None
      /\ validate P (Some tok) now e =
           (Returned (Invalid "Token not found"),
            logged P (failure "Token not found" now) now e))
  \/ (exists tokenData, marker h now e = None /\ lookup h now e = Some tokenData
      /\ expiresAt tokenData < now
      /\ validate P (Some tok) now e =
           (Returned (Invalid "Token has expired"),
            logged P (with_tokenId (tokenId tokenData) (failure "Token expired" now))
              now e))
  \/ (exists tokenData, isValidTokenFormat t = true /\ marker h now e = None
      /\ lookup h now e = Some tokenData
      /\ now <= expiresAt tokenData
      /\ validate P (Some tok) now e = accepted_token P h tokenData now e).
Proof.
  intros t h. subst t h.
  destruct (isValidTokenFormat (Js.stripBearer tok)) eqn:Hf;
    [|left; split; [reflexivity|apply validate_malformed, Hf]].
  right.
  destruct (marker (hashToken P (Js.stripBearer tok)) now e) as [r|] eqn:Hm;
    [left; exists r; split; [reflexivity|eapply validate_revoked; eassumption]|].
  right.
  destruct (lookup (hashToken P (Js.stripBearer tok)) now e) as [tokenData|] eqn:Hl;
    [|left; repeat split; apply validate_not_found; assumption].
  right.
  destruct (Z.ltb_spec (expiresAt tokenData) now) as [Hx|Hx].
  - left. exists tokenData. repeat split; [assumption|].
    apply validate_expired; [assumption..|]. apply Z.ltb_lt, Hx.
  - right. exists tokenData. repeat split; [assumption|].
    apply validate_accepted; [assumption..|]. apply Z.ltb_ge, Hx.
Qed.

(** A token past the expiry gate has its usage updated; then it is
    either throttled by an exception, with nothing more written, or
    reported valid. *)
Lemma accepted_token_outcome tokenHash tokenData now e :
  exists tokenData' e1,
    updateTokenUsage tokenHash tokenData now e = (Returned tokenData', e1)
    /\ ((AUTH_RATE_LIMITS e1 <> None
         /\ requests (getRateLimit (scope tokenData)) <= currentCount tokenHash now e1
         /\ accepted_token P tokenHash tokenData now e =
              (Thrown "Rate limit exceeded", e1))
        \/ (exists rateLimitRemaining e',
              (AUTH_RATE_LIMITS e1 = None /\ rateLimitRemaining = 999
               \/ AUTH_RATE_LIMITS e1 <> None
                  /\ currentCount tokenHash now e1
                     < requests (getRateLimit (scope tokenData))
                  /\ rateLimitRemaining =
                       requests (getRateLimit (scope tokenData))
                       - currentCount tokenHash now e1 - 1)
              /\ accepted_token P tokenHash tokenData now e =
                   (Returned (Valid (report tokenData rateLimitRemaining)), e')
              /\ AUTH_REVOCATIONS e' = AUTH_REVOCATIONS e1)).
Proof.
  destruct (updateTokenUsage_returns tokenHash tokenData now e)
    as (td & e1 & Hu & Hid & Hc & Hs & Hsv & Hx & _).
  exists td, e1. split; [exact Hu|].
  unfold report. rewrite <- Hid, <- Hc, <- Hs, <- Hsv, <- Hx.
  destruct (AUTH_RATE_LIMITS e1) as [kv|] eqn:Hrl.
  - destruct (Z.le_gt_cases (requests (getRateLimit (scope td)))
                (currentCount tokenHash now e1)) as [Hn|Hn].
    + left. split; [discriminate|]. split; [exact Hn|].
      unfold accepted_token, bind.
      rewrite Hu, (checkRateLimit_exceeded _ _ _ _ kv Hrl Hn). reflexivity.
    + right. eexists _, _. split; [right; split; [discriminate|split; [exact Hn|reflexivity]]|].
      unfold accepted_token, bind.
      rewrite Hu, (checkRateLimit_counted _ _ _ _ kv Hrl Hn), logAuditEvent_returns.
      split; [reflexivity|]. rewrite logged_AUTH_REVOCATIONS. reflexivity.
  - right. eexists _, _. split; [left; split; reflexivity|].
    unfold accepted_token, bind.
    rewrite Hu, (checkRateLimit_unbound _ _ _ _ Hrl), logAuditEvent_returns.
    split; [reflexivity|]. apply logged_AUTH_REVOCATIONS.
Qed.

(** The call that is thrown out by the rate limit records no event. *)
Lemma thrown_validation_logs_nothing token now e message e' :
  validate P token now e = (Thrown message, e') ->
  events e' = events e /\ AUTH_AUDIT e' = AUTH_AUDIT e.
Proof.
  destruct token as [tok|]; [|discriminate].
  destruct (validate_branches tok now e)
    as [(_ & H)|[(r & _ & H)|[(_ & _ & H)|[(td & _ & _ & _ & H)|(td & _ & _ & _ & _ & H)]]]];
    rewrite H; clear H; try discriminate.
  destruct (accepted_token_outcome (hashToken P (Js.stripBearer tok)) td now e)
    as (td' & e1 & Hu & [(_ & _ & ->)|(n & e2 & _ & -> & _)]); [|discriminate].
  intros [= _ <-].
  destruct (updateTokenUsage_returns (hashToken P (Js.stripBearer tok)) td now e)
    as (td2 & e2 & Hu2 & _ & _ & _ & _ & _ & _ & _ & Hev & Hau).
  rewrite Hu in Hu2. injection Hu2 as _ <-. split; assumption.
Qed.
End Failures.

(** Case analysis on the branch that a call of [validate] takes, with
    the call rewritten to the outcome of that branch; [td] names the
    token data of the last two branches. *)
Ltac validate_branch P tok now e td :=
  let H := fresh "H" in
  destruct (validate_branches P tok now e)
    as [(_ & H)|[(? & _ & H)|[(_ & _ & H)|[(td & _ & _ & _ & H)|(td & _ & _ & _ & _ & H)]]]];
  rewrite H; clear H.

(** ** Claims about the failures of [validate] *)

(** C9: a validation that returns [{ valid: false, error }] leaves the
    [tokens] table and the token cache as they were: no [request_count]
    is incremented and no [last_used_at] is set. *)
Theorem failed_validation_keeps_token_state P token now e error e' :
  validate P token now e = (Returned (Invalid error), e') ->
  tokens <$> AUTH_DB e' = tokens <$> AUTH_DB e /\ AUTH_TOKENS e' = AUTH_TOKENS e.
Proof.
  destruct token as [tok|]; [|intros [= _ <-]; split; reflexivity].
  validate_branch P tok now e td.
  - intros [= _ <-]; split; reflexivity.
  - intros [= _ <-]. split; [apply logged_tokens|apply logged_AUTH_TOKENS].
  - intros [= _ <-]. split; [apply logged_tokens|apply logged_AUTH_TOKENS].
  - intros [= _ <-]. split; [apply logged_tokens|apply logged_AUTH_TOKENS].
  - destruct (accepted_token_outcome P (hashToken P (Js.stripBearer tok)) td now e)
      as (td' & e1 & _ & [(_ & _ & ->)|(n & e2 & _ & -> & _)]); discriminate.
Qed.

(** The expired token of the sample is refused, and its row and cache
    entry stay as they were. *)
Lemma failed_validation_keeps_token_state_witness :
  tokens <$> AUTH_DB (snd (validate Sample.platform (Some Sample.token)
                             (Sample.t0 + 3600001) Sample.issued))
    = tokens <$> AUTH_DB Sample.issued
  /\ AUTH_TOKENS (snd (validate Sample.platform (Some Sample.token)
                         (Sample.t0 + 3600001) Sample.issued))
     = AUTH_TOKENS Sample.issued.
Proof.
  apply (failed_validation_keeps_token_state Sample.platform (Some Sample.token)
           (Sample.t0 + 3600001) Sample.issued "Token has expired").
  vm_compute. reflexivity.
Defined.





(** C6: the code logs nothing on two branches. A token that fails the
    format gate is refused with the bindings untouched, and the call
    that exceeds the rate limit throws without an audit event. *)
Theorem malformed_and_throttled_leave_no_audit_event :
  validate Sample.platform (Some "invalid-token-format") Sample.t0 Sample.fresh
    = (Returned (Invalid "Invalid token format"), Sample.fresh)
  /\ fst (validate Sample.platform (Some Sample.token) Sample.t0 Sample.exhausted)
     = Thrown "Rate limit exceeded"
  /\ events (snd (validate Sample.platform (Some Sample.token) Sample.t0 Sample.exhausted))
     = events Sample.exhausted
  /\ AUTH_AUDIT (snd (validate Sample.platform (Some Sample.token) Sample.t0 Sample.exhausted))
     = AUTH_AUDIT Sample.exhausted.
Proof.
  split; [vm_compute; reflexivity|].
  assert (Hthrown :
            fst (validate Sample.platform (Some Sample.token) Sample.t0 Sample.exhausted)
            = Thrown "Rate limit exceeded") by (vm_compute; reflexivity).
  split; [exact Hthrown|].
  apply (thrown_validation_logs_nothing Sample.platform (Some Sample.token) Sample.t0
           Sample.exhausted "Rate limit exceeded").
  destruct (validate Sample.platform (Some Sample.token) Sample.t0 Sample.exhausted)
    as [o e'].
  simpl in Hthrown. rewrite Hthrown. reflexivity.
Qed.

(** C8: at the instant [now = expiresAt] the code reports the token
    valid: the expiry gate refuses only [expiresAt < now]. *)
Theorem token_valid_at_its_expiry_instant :
  exists v,
    fst (validate Sample.platform (Some Sample.token) (Sample.t0 + 3600000) Sample.issued)
      = Returned (Valid v)
    /\ v_expiresAt v = Sample.t0 + 3600000.
Proof. eexists. split; vm_compute; reflexivity. Qed.

(** The counter key of [checkRateLimit] is the same for two instants
    exactly when they fall in the same second. *)
Lemma rateLimitKey_per_second tokenHash now1 now2 :
  rateLimitKey tokenHash now1 = rateLimitKey tokenHash now2 <->
  now1 / 1000 = now2 / 1000.
Proof.
  unfold rateLimitKey. split.
  - intros H. do 3 apply (inj (String.app _)) in H.
    apply (inj pretty) in H. lia.
  - intros ->. reflexivity.
Qed.

(** C2: a hundred and one validations of one token, one second apart
    within one clock hour, each find a fresh counter: all succeed with
    99 requests remaining. *)
Theorem one_counter_per_second :
  let times := map (fun k => Sample.t0 + 1000 * Z.of_nat k) (seq 0 101) in
  Forall (fun now => now / 3600000 = Sample.t0 / 3600000) times
  /\ map (fun o => match o with
                   | Returned (Valid v) => Some (v_rateLimitRemaining v)
                   | _ => None
                   end)
         (fst (validations Sample.platform (Some Sample.token) times Sample.issued))
     = repeat (Some 99) 101.
Proof.
  split.
  - apply Forall_forall. intros now Hin. apply list_elem_of_In in Hin.
    apply in_map_iff in Hin as (k & <- & Hk). apply in_seq in Hk.
    change Sample.t0 with (480707 * 3600000).
    rewrite Z.div_mul by lia.
    symmetry. apply Z.div_unique with (r := 1000 * Z.of_nat k); lia.
  - vm_compute. reflexivity.
Qed.

(** ** The Bearer prefix *)

Lemma skip_ws_none t : Js.ws_one t = None -> Js.skip_ws t = t.
Proof.
  intros H. unfold Js.skip_ws. destruct (String.length t); simpl; [reflexivity|].
  rewrite H. reflexivity.
Qed.

Lemma stripBearer_prefixed t :
  Js.ws_one t = None -> Js.stripBearer ("Bearer " +:+ t) = t.
Proof. intros H. unfold Js.stripBearer. simpl. apply skip_ws_none, H. Qed.

Lemma stripBearer_plain t : Js.hasBearerPrefix t = false -> Js.stripBearer t = t.
Proof.
  unfold Js.hasBearerPrefix, Js.stripBearer.
  destruct (Js.match_ci "bearer" t) as [rest|]; [|reflexivity].
  destruct (Js.ws_one rest); [discriminate|reflexivity].
Qed.

(** Two strings with the same text under the prefix are validated alike;
    the empty string is refused like a string with no recognised prefix. *)
Lemma validate_by_stripped P tok1 tok2 now e :
  Js.stripBearer tok1 = Js.stripBearer tok2 ->
  validate P (Some tok1) now e = validate P (Some tok2) now e.
Proof.
  intros H.
  destruct (isValidTokenFormat (Js.stripBearer tok2)) eqn:Hf.
  - assert (Hf1 : isValidTokenFormat (Js.stripBearer tok1) = true) by (rewrite H; exact Hf).
    destruct tok1 as [|c1 s1]; [discriminate Hf1|].
    destruct tok2 as [|c2 s2]; [discriminate Hf|].
    unfold validate. rewrite H. reflexivity.
  - rewrite (validate_malformed P tok2 now e Hf).
    apply validate_malformed. rewrite H. exact Hf.
Qed.

(** C10, as the code has it: for a token string [t] that starts neither
    with white space nor with a Bearer prefix of its own,
    [validate('Bearer ' + t)] is [validate(t)]. *)
Theorem bearer_prefix_is_transparent P t now e :
  Js.ws_one t = None ->
  Js.hasBearerPrefix t = false ->
  validate P (Some ("Bearer " +:+ t)) now e = validate P (Some t) now e.
Proof.
  intros Hws Hb. apply validate_by_stripped.
  rewrite (stripBearer_prefixed t Hws), (stripBearer_plain t Hb). reflexivity.
Qed.

Lemma bearer_prefix_is_transparent_witness :
  validate Sample.platform (Some ("Bearer " +:+ Sample.token)) Sample.t0 Sample.issued
  = validate Sample.platform (Some Sample.token) Sample.t0 Sample.issued.
Proof.
  apply (bearer_prefix_is_transparent Sample.platform Sample.token Sample.t0 Sample.issued);
    vm_compute; reflexivity.
Defined.

(** C10, as stated, fails for a string that carries a Bearer prefix of
    its own: one prefix is removed, not two. With [t = 'Bearer ' + token],
    [validate(t)] succeeds and [validate('Bearer ' + t)] is refused. *)
Lemma second_bearer_prefix_is_kept :
  fst (validate Sample.platform
         (Some ("Bearer " +:+ ("Bearer " +:+ Sample.token))) Sample.t0 Sample.issued)
  <> fst (validate Sample.platform
            (Some ("Bearer " +:+ Sample.token)) Sample.t0 Sample.issued).
Proof. vm_compute. discriminate. Qed.

(** ** Provisioning *)

Lemma provision_missing P cfg x now e :
  Js.truthy (p_chittyId x) = false \/ p_scope x = None \/ Js.truthy (p_service x) = false ->
  provision P cfg x now e =
    (Thrown "Missing required parameters: chittyId, scope, service", e).
Proof.
  intros H. unfold provision.
  destruct (Js.truthy (p_chittyId x)); [|reflexivity].
  destruct (p_scope x); [|reflexivity].
  destruct (Js.truthy (p_service x)); [|reflexivity].
  destruct H as [H|[H|H]]; discriminate H.
Qed.

Lemma ttl_exact now n : (now + n * 1000 - now) / 1000 = n.
Proof. replace (now + n * 1000 - now) with (n * 1000) by lia. apply Z.div_mul. lia. Qed.

Lemma provision_returns P cfg x now e scope :
  Js.truthy (p_chittyId x) = true ->
  p_scope x = Some scope ->
  Js.truthy (p_service x) = true ->
  Js.validDate (provisionExpiry cfg x now) = true ->
  exists r e',
    provision P cfg x now e = (Returned r, e')
    /\ pr_scope r = scope
    /\ pr_expiresAt r
       = now + match p_expiresIn x with
               | Some 0 | None => defaultExpiry cfg
               | Some n => n
               end * 1000
    /\ AUTH_REVOCATIONS e' = AUTH_REVOCATIONS e
    /\ AUTH_RATE_LIMITS e' = AUTH_RATE_LIMITS e
    /\ AUTH_TOKENS e' =
         (fun kv => KV.put kv ("token:" +:+ hashToken P (pr_token r))
                      (provisioned_data x now r) ((pr_expiresAt r - now) / 1000) now)
         <$> AUTH_TOKENS e
    /\ tokens <$> AUTH_DB e' =
         (fun db => tokens db ++
                      [inserted_row (pr_tokenId r) (hashToken P (pr_token r))
                         (default "" (p_chittyId x)) scope now (pr_expiresAt r)])%list
         <$> AUTH_DB e.
Proof.
  intros Hc Hs Hv Hd. unfold provisionExpiry in Hd.
  unfold provision. rewrite Hc, Hs, Hv. cbn [negb orb bool_decide].
  rewrite bool_decide_eq_true_2 by eauto. cbn [negb orb default]. cbv zeta.
  rewrite Hd.
  destruct e as [[db|] [tk|] rv rl [au|] n];
    (eexists _, _; split; [reflexivity|]; cbn; repeat split; reflexivity).
Qed.

(** With the three parameters present and an expiry that is no date,
    [provision] throws out of its [return], after the writes. *)
Lemma provision_invalid_date P cfg x now e scope :
  Js.truthy (p_chittyId x) = true ->
  p_scope x = Some scope ->
  Js.truthy (p_service x) = true ->
  Js.validDate (provisionExpiry cfg x now) = false ->
  exists tokenId token e',
    provision P cfg x now e = (Thrown "Invalid time value", e')
    /\ AUTH_REVOCATIONS e' = AUTH_REVOCATIONS e
    /\ AUTH_RATE_LIMITS e' = AUTH_RATE_LIMITS e
    /\ tokens <$> AUTH_DB e' =
         (fun db => tokens db ++
                      [inserted_row tokenId (hashToken P token)
                         (default "" (p_chittyId x)) scope now
                         (provisionExpiry cfg x now)])%list
         <$> AUTH_DB e.
Proof.
  intros Hc Hs Hv Hd. unfold provisionExpiry in *.
  unfold provision. rewrite Hc, Hs, Hv. cbn [negb orb bool_decide].
  rewrite bool_decide_eq_true_2 by eauto. cbn [negb orb default]. cbv zeta.
  rewrite Hd.
  destruct e as [[db|] [tk|] rv rl [au|] n];
    [eexists _, _, _; split; [reflexivity|]; cbn; repeat split; reflexivity ..
    | | | |];
    (exists "", ""; eexists; split; [reflexivity|]; cbn; repeat split; reflexivity).
Qed.




(** ** Revocation *)

Lemma select_token_hash_updated now tokenId db :
  select_token_hash tokenId (update_revoked_at now tokenId db)
  = select_token_hash tokenId db.
Proof.
  unfold select_token_hash, update_revoked_at. cbn [tokens].
  induction (tokens db) as [|r rows IH]; [reflexivity|].
  cbn [map find]. destruct (String.eqb (row_id r) tokenId) eqn:Hid.
  - cbn [revoked_row row_id]. rewrite Hid. reflexivity.
  - rewrite Hid. exact IH.
Qed.

Lemma update_revoked_at_rows now tokenId db row :
  In row (tokens (update_revoked_at now tokenId db)) ->
  row_id row = tokenId ->
  row_revoked_at row = Some now.
Proof.
  unfold update_revoked_at. cbn [tokens]. intros Hin Hid.
  apply in_map_iff in Hin as (r & <- & _).
  destruct (String.eqb (row_id r) tokenId) eqn:E; [reflexivity|].
  apply String.eqb_neq in E. contradiction.
Qed.

Arguments select_token_hash : simpl never.
Arguments update_revoked_at : simpl never.

(** [revoke] returns success on every call; it stamps the rows of the
    identifier and, when the identifier has a row, writes the marker of
    its hash for ninety days. *)
Lemma revoke_returns P tokenId reason now e :
  exists e',
    revoke P tokenId reason now e =
      (Returned {| rr_tokenId := tokenId; rr_revokedAt := now;
                   rr_reason := default "Manual revocation" reason |}, e')
    /\ tokens <$> AUTH_DB e' =
         (fun db => tokens (update_revoked_at now tokenId db)) <$> AUTH_DB e
    /\ AUTH_REVOCATIONS e' =
         match AUTH_DB e ≫= select_token_hash tokenId with
         | Some token_hash =>
             (fun kv => KV.put kv ("revoked:" +:+ token_hash)
                          (revocation tokenId reason now) (86400 * 90) now)
             <$> AUTH_REVOCATIONS e
         | None => AUTH_REVOCATIONS e
         end
    /\ AUTH_RATE_LIMITS e' = AUTH_RATE_LIMITS e.
Proof.
  unfold revoke, bind, env, update, ret.
  destruct e as [[db|] tk rv rl au n]; cbn.
  - rewrite select_token_hash_updated.
    destruct (select_token_hash tokenId db) as [h|]; cbn;
      destruct rv as [rv|], tk as [tk|]; cbn;
      rewrite logAuditEvent_returns; eexists; (split; [reflexivity|]);
      rewrite logged_tokens, logged_AUTH_REVOCATIONS, logged_AUTH_RATE_LIMITS;
      repeat split; reflexivity.
  - rewrite logAuditEvent_returns. eexists. split; [reflexivity|].
    rewrite logged_tokens, logged_AUTH_REVOCATIONS, logged_AUTH_RATE_LIMITS.
    repeat split; reflexivity.
Qed.

(** C5, as the code has it: [revoke] returns success on every call, and
    each call stamps the record with its own instant, so that after two
    calls the record holds the [revoked_at] of the second. *)
Theorem revoke_twice_keeps_latest P tokenId reason1 reason2 t1 t2 e :
  exists e1 e2,
    revoke P tokenId reason1 t1 e =
      (Returned {| rr_tokenId := tokenId; rr_revokedAt := t1;
                   rr_reason := default "Manual revocation" reason1 |}, e1)
    /\ revoke P tokenId reason2 t2 e1 =
         (Returned {| rr_tokenId := tokenId; rr_revokedAt := t2;
                      rr_reason := default "Manual revocation" reason2 |}, e2)
    /\ forall db row,
         AUTH_DB e2 = Some db -> In row (tokens db) -> row_id row = tokenId ->
         row_revoked_at row = Some t2.
Proof.
  destruct (revoke_returns P tokenId reason1 t1 e) as (e1 & H1 & _).
  destruct (revoke_returns P tokenId reason2 t2 e1) as (e2 & H2 & Hrows & _).
  exists e1, e2. split; [exact H1|]. split; [exact H2|].
  intros db row Hdb Hin Hid. rewrite Hdb in Hrows.
  destruct (AUTH_DB e1) as [db1|]; cbn in Hrows; [|discriminate Hrows].
  injection Hrows as Hrows. rewrite Hrows in Hin.
  exact (update_revoked_at_rows t2 tokenId db1 row Hin Hid).
Qed.

(** C5, as stated, fails: a second [revoke], a second later and with
    another reason, overwrites [revoked_at] in the row and the reason in
    the marker. *)
Lemma second_revoke_overwrites :
  let e1 := snd (revoke Sample.platform Sample.token_id (Some "first")
                   (Sample.t0 + 1000) Sample.issued) in
  let e2 := snd (revoke Sample.platform Sample.token_id (Some "second")
                   (Sample.t0 + 2000) e1) in
  (map row_revoked_at <$> (tokens <$> AUTH_DB e1)) = Some [Some (Sample.t0 + 1000)]
  /\ (map row_revoked_at <$> (tokens <$> AUTH_DB e2)) = Some [Some (Sample.t0 + 2000)]
  /\ rv_reason <$> marker (hashToken Sample.platform Sample.token) (Sample.t0 + 2000) e2
     = Some "second".
Proof. split; [|split]; vm_compute; reflexivity. Qed.

(** ** Revocation finality *)

Section Finality.
Variable P : Platform.
Variable cfg : Config.

Lemma marker_until_read tokenHash deadline now e :
  marker_until ("revoked:" +:+ tokenHash) deadline e -> now < deadline ->
  exists r, marker tokenHash now e = Some r.
Proof.
  intros (kv & v & expiry & Hkv & Hk & Hd) Hnow.
  exists v. unfold marker, KV.get. rewrite Hkv, Hk.
  destruct (Z.ltb_spec now expiry); [reflexivity|lia].
Qed.

Lemma marker_until_same key deadline e e' :
  AUTH_REVOCATIONS e' = AUTH_REVOCATIONS e ->
  marker_until key deadline e -> marker_until key deadline e'.
Proof. intros H (kv & v & x & Hkv & Hrest). exists kv, v, x. rewrite H. auto. Qed.

Lemma validate_AUTH_REVOCATIONS token now e :
  AUTH_REVOCATIONS (snd (validate P token now e)) = AUTH_REVOCATIONS e.
Proof.
  destruct token as [tok|]; [|reflexivity].
  validate_branch P tok now e td; cbn [snd];
    try apply logged_AUTH_REVOCATIONS; try reflexivity.
  destruct (updateTokenUsage_returns (hashToken P (Js.stripBearer tok)) td now e)
    as (td2 & e2 & Hu2 & _ & _ & _ & _ & _ & Hrv & _).
  destruct (accepted_token_outcome P (hashToken P (Js.stripBearer tok)) td now e)
    as (td' & e1 & Hu & [(_ & _ & ->)|(n & e3 & _ & -> & Hrv3)]);
    rewrite Hu in Hu2; injection Hu2 as _ <-; cbn [snd]; congruence.
Qed.

Lemma provision_AUTH_REVOCATIONS x now e :
  AUTH_REVOCATIONS (snd (provision P cfg x now e)) = AUTH_REVOCATIONS e.
Proof.
  destruct (Js.truthy (p_chittyId x)) eqn:Hc;
    [|rewrite provision_missing by auto; reflexivity].
  destruct (p_scope x) as [scope|] eqn:Hs;
    [|rewrite provision_missing by auto; reflexivity].
  destruct (Js.truthy (p_service x)) eqn:Hv;
    [|rewrite provision_missing by auto; reflexivity].
  destruct (Js.validDate (provisionExpiry cfg x now)) eqn:Hd.
  - destruct (provision_returns P cfg x now e scope Hc Hs Hv Hd)
      as (r & e' & -> & _ & _ & H & _).
    exact H.
  - destruct (provision_invalid_date P cfg x now e scope Hc Hs Hv Hd)
      as (tokenId & token & e' & -> & H & _).
    exact H.
Qed.

(** A revocation at [now] keeps every marker that is due to live until
    [deadline], when its own ninety days reach that far. *)
Lemma revoke_marker_until key deadline tokenId reason now e :
  deadline <= now + 86400 * 90 * 1000 ->
  marker_until key deadline e ->
  marker_until key deadline (snd (revoke P tokenId reason now e)).
Proof.
  intros Hd (kv & v & x & Hkv & Hk & Hx).
  destruct (revoke_returns P tokenId reason now e) as (e' & -> & _ & Hrv & _).
  cbn [snd]. unfold marker_until. rewrite Hrv, Hkv.
  destruct (AUTH_DB e ≫= select_token_hash tokenId) as [h|]; [|eauto 6].
  cbn. unfold KV.put.
  destruct (decide ("revoked:" +:+ h = key)) as [<-|Hne].
  - eexists _, _, _. split; [reflexivity|]. rewrite lookup_insert_eq.
    split; [reflexivity|lia].
  - eexists _, _, _. split; [reflexivity|]. rewrite lookup_insert_ne by exact Hne.
    split; [exact Hk|exact Hx].
Qed.

Lemma refresh_marker_until key deadline token expiresIn now e :
  deadline <= now + 86400 * 90 * 1000 ->
  marker_until key deadline e ->
  marker_until key deadline (snd (refresh P cfg token expiresIn now e)).
Proof.
  intros Hd Hm. unfold refresh, bind.
  pose proof (validate_AUTH_REVOCATIONS token now e) as Hv.
  destruct (validate P token now e) as [[[v|error]|message] e1]; cbn [snd] in Hv;
    try (cbn [snd ret]; eapply marker_until_same; eassumption).
  pose proof (revoke_marker_until key deadline (v_tokenId v) (Some "Token refreshed")
                now e1 Hd (marker_until_same _ _ _ _ Hv Hm)) as Hr.
  destruct (revoke P (v_tokenId v) (Some "Token refreshed") now e1) as [[rr|message] e2];
    cbn [snd] in Hr; [|exact Hr].
  match goal with
  | |- context [provision P cfg ?x now e2] =>
      pose proof (provision_AUTH_REVOCATIONS x now e2) as Hp;
      destruct (provision P cfg x now e2) as [[r|message] e3]
  end; cbn [snd] in Hp.
  - rewrite logAuditEvent_returns. cbn [snd ret].
    eapply marker_until_same; [|exact Hr].
    rewrite logged_AUTH_REVOCATIONS. exact Hp.
  - cbn [snd]. eapply marker_until_same; eassumption.
Qed.

Lemma after_call_marker_until key deadline now c e :
  deadline <= now + 86400 * 90 * 1000 ->
  marker_until key deadline e ->
  marker_until key deadline (after_call P cfg now c e).
Proof.
  intros Hd Hm. destruct c as [x|token|tokenId reason|token expiresIn|cache]; cbn [after_call].
  - eapply marker_until_same; [apply provision_AUTH_REVOCATIONS|exact Hm].
  - eapply marker_until_same; [apply validate_AUTH_REVOCATIONS|exact Hm].
  - apply revoke_marker_until; assumption.
  - apply refresh_marker_until; assumption.
  - destruct (AUTH_TOKENS e); [|exact Hm].
    eapply marker_until_same; [|exact Hm]. reflexivity.
Qed.

Lemma after_calls_marker_until key deadline history :
  Forall (fun tc => deadline <= fst tc + 86400 * 90 * 1000) history ->
  forall e, marker_until key deadline e ->
            marker_until key deadline (after_calls P cfg history e).
Proof.
  induction 1 as [|[now c] history Hd _ IH]; intros e Hm; cbn [after_calls].
  - exact Hm.
  - apply IH. apply after_call_marker_until; assumption.
Qed.

End Finality.

(** C1: once [revoke(tokenId)] has run at [revokedAt], with the table
    and the revocation namespace bound and a row for [tokenId], every
    [validate] of a string that passes the format gate and hashes to the
    hash of that row returns [Token has been revoked] for ninety days,
    whatever calls were made in between from [revokedAt] on, and
    whatever the token cache holds: the marker is read before the cache. *)
Theorem revoked_for_ninety_days P cfg tokenId reason revokedAt e db tok history now :
  AUTH_DB e = Some db ->
  AUTH_REVOCATIONS e <> None ->
  select_token_hash tokenId db = Some (hashToken P (Js.stripBearer tok)) ->
  isValidTokenFormat (Js.stripBearer tok) = true ->
  Forall (fun tc => revokedAt <= fst tc) history ->
  now < revokedAt + 86400 * 90 * 1000 ->
  fst (validate P (Some tok) now
         (after_calls P cfg history (snd (revoke P tokenId reason revokedAt e))))
  = Returned (Invalid "Token has been revoked").
Proof.
  intros Hdb Hrv Hrow Hf Hh Hnow.
  set (h := hashToken P (Js.stripBearer tok)) in *.
  assert (Hm : marker_until ("revoked:" +:+ h) (revokedAt + 86400 * 90 * 1000)
                 (snd (revoke P tokenId reason revokedAt e))).
  { destruct (revoke_returns P tokenId reason revokedAt e) as (e' & -> & _ & H & _).
    cbn [snd]. rewrite Hdb in H. cbn in H. rewrite Hrow in H.
    destruct (AUTH_REVOCATIONS e) as [kv|]; [|contradiction].
    cbn in H. unfold marker_until. rewrite H. unfold KV.put.
    eexists _, _, _. split; [reflexivity|]. rewrite lookup_insert_eq.
    split; [reflexivity|lia]. }
  apply (after_calls_marker_until P cfg _ _ history) in Hm.
  - destruct (marker_until_read _ _ now _ Hm Hnow) as (r & Hr).
    rewrite (validate_revoked P tok now _ r Hf Hr). reflexivity.
  - eapply Forall_impl; [exact Hh|]. cbn. intros [t c] Ht. cbn in *. lia.
Qed.

(** The unit test's revocation, followed by a cache that still holds the
    entry of the token and by one more validation. *)
Lemma revoked_for_ninety_days_witness :
  fst (validate Sample.platform (Some ("Bearer " +:+ Sample.token)) (Sample.t0 + 5000)
         (after_calls Sample.platform Sample.config
            [(Sample.t0 + 2000, CacheChange (default ∅ (AUTH_TOKENS Sample.issued)));
             (Sample.t0 + 3000, CallValidate (Some Sample.token))]
            (snd (revoke Sample.platform Sample.token_id (Some "Testing revocation")
                    (Sample.t0 + 1000) Sample.issued))))
  = Returned (Invalid "Token has been revoked").
Proof.
  apply (revoked_for_ninety_days Sample.platform Sample.config Sample.token_id
           (Some "Testing revocation") (Sample.t0 + 1000) Sample.issued
           (default {| tokens := []; auth_events := [] |} (AUTH_DB Sample.issued))).
  - vm_compute. reflexivity.
  - vm_compute. discriminate.
  - vm_compute. reflexivity.
  - vm_compute. reflexivity.
  - repeat constructor; vm_compute; discriminate.
  - vm_compute. reflexivity.
Defined.

(** ** The round trip from [provision] to [validate] *)

(** A string that passes the format gate starts with [c] or [s]: it
    carries no Bearer prefix. *)
Lemma wellformed_is_plain t : isValidTokenFormat t = true -> Js.stripBearer t = t.
Proof.
  unfold isValidTokenFormat, Js.startsWith. destruct t as [|c s]; [discriminate|].
  cbn [existsb String.prefix].
  destruct (ascii_dec "c" c) as [<-|_]; [reflexivity|].
  destruct (ascii_dec "s" c) as [<-|_]; [reflexivity|discriminate].
Qed.

Lemma currentCount_same tokenHash now e e' :
  AUTH_RATE_LIMITS e' = AUTH_RATE_LIMITS e ->
  currentCount tokenHash now e' = currentCount tokenHash now e.
Proof. unfold currentCount. intros ->. reflexivity. Qed.

(** What holds of the round trip: in the bindings that [provision]
    leaves, with the cache bound and a token that passes the format
    gate, a validation before [expiresAt] that finds no marker and is
    not throttled succeeds with the identifier, the subject, the scope
    and the service that were provisioned. *)
Lemma round_trip_from_cache P cfg x now e r e1 now' :
  provision P cfg x now e = (Returned r, e1) ->
  AUTH_TOKENS e <> None ->
  isValidTokenFormat (pr_token r) = true ->
  marker (hashToken P (pr_token r)) now' e = None ->
  now' < pr_expiresAt r ->
  (AUTH_RATE_LIMITS e = None
   \/ currentCount (hashToken P (pr_token r)) now' e
      < requests (getRateLimit (pr_scope r))) ->
  exists v e2,
    validate P (Some (pr_token r)) now' e1 = (Returned (Valid v), e2)
    /\ v_tokenId v = pr_tokenId r
    /\ Some (v_chittyId v) = p_chittyId x
    /\ Some (v_scope v) = p_scope x
    /\ v_service v = p_service x
    /\ v_expiresAt v = pr_expiresAt r.
Proof.
  intros Hp Htk Hf Hm Hnow Hrl.
  destruct (Js.truthy (p_chittyId x)) eqn:Hc;
    [|rewrite provision_missing in Hp by auto; discriminate Hp].
  destruct (p_scope x) as [scope|] eqn:Hs;
    [|rewrite provision_missing in Hp by auto; discriminate Hp].
  destruct (Js.truthy (p_service x)) eqn:Hv;
    [|rewrite provision_missing in Hp by auto; discriminate Hp].
  destruct (Js.validDate (provisionExpiry cfg x now)) eqn:Hd.
  2: { destruct (provision_invalid_date P cfg x now e scope Hc Hs Hv Hd)
         as (tokenId & token & e' & Hp' & _).
       rewrite Hp in Hp'. discriminate Hp'. }
  destruct (provision_returns P cfg x now e scope Hc Hs Hv Hd)
    as (r' & e1' & Hp' & Hsc & Hexp & Hrv & Hrl1 & Htok & _).
  rewrite Hp in Hp'. injection Hp' as <- <-.
  pose proof (wellformed_is_plain _ Hf) as Hplain.
  set (h := hashToken P (pr_token r)) in *.
  assert (Hm1 : marker h now' e1 = None) by (unfold marker in *; rewrite Hrv; exact Hm).
  assert (Hl : lookup h now' e1 = Some (provisioned_data x now r)).
  { unfold lookup. rewrite Htok. destruct (AUTH_TOKENS e) as [kv|]; [|contradiction].
    cbn. unfold KV.get, KV.put. rewrite lookup_insert_eq.
    assert (Httl : now + (pr_expiresAt r - now) / 1000 * 1000 = pr_expiresAt r)
      by (rewrite Hexp, ttl_exact; reflexivity).
    rewrite Httl.
    destruct (Z.ltb_spec now' (pr_expiresAt r)); [reflexivity|lia]. }
  assert (Hx : (expiresAt (provisioned_data x now r) <? now') = false)
    by (apply Z.ltb_ge; cbn; lia).
  pose proof (validate_accepted P (pr_token r) now' e1 (provisioned_data x now r)) as Hva.
  rewrite Hplain in Hva. fold h in Hva. rewrite (Hva Hf Hm1 Hl Hx). clear Hva.
  destruct (updateTokenUsage_returns h (provisioned_data x now r) now' e1)
    as (td2 & e2 & Hu2 & _ & _ & _ & _ & _ & _ & Hrl2 & _).
  destruct (accepted_token_outcome P h (provisioned_data x now r) now' e1)
    as (td' & e1' & Hu & [(Hb & Hn & _)|(n & e3 & _ & -> & _)]).
  - exfalso. rewrite Hu in Hu2. injection Hu2 as _ <-.
    rewrite (currentCount_same h now' e _) in Hn by congruence.
    cbn in Hn. destruct Hrl as [Hnone|Hlt]; [|lia].
    apply Hb. congruence.
  - exists (report (provisioned_data x now r) n), e3. split; [reflexivity|].
    cbn. rewrite Hsc.
    destruct (p_chittyId x) as [[|c cid]|]; try discriminate Hc.
    destruct (p_service x) as [[|c' svc]|]; try discriminate Hv.
    repeat split; reflexivity.
Qed.

(** C3: the code breaks the round trip in two places. The [INSERT] of
    [provision] leaves [service_name] out, so a validation served from
    the table returns no service: with every binding present, once the
    cache entry rewritten by a first validation has run out, three
    tenths of a second before the token expires; and with no cache
    bound. And under the documented [ENVIRONMENT = development] the
    token that [provision] mints starts with [ca_development_], which
    [isValidTokenFormat] refuses. *)
Theorem round_trip_breaks :
  p_service Sample.input = Some "chittyid"
  /\ map (fun o => match o with
                   | Returned (Valid v) => Some (v_chittyId v, v_scope v, v_service v)
                   | _ => None
                   end)
         (fst (validations Sample.platform (Some Sample.token)
                 [Sample.t0 + 500; Sample.t0 + 3599700] Sample.issued))
     = [Some ("03-1-USA-0001-P-251-3-82", ["chittyid:read"], Some "chittyid");
        Some ("03-1-USA-0001-P-251-3-82", ["chittyid:read"], None)]
  /\ (exists r e1 v,
        provision Sample.platform Sample.config Sample.input Sample.t0 Sample.uncached
          = (Returned r, e1)
        /\ fst (validate Sample.platform (Some (pr_token r)) Sample.t0 e1)
           = Returned (Valid v)
        /\ v_service v = None)
  /\ (exists r e1,
        provision Sample.platform Sample.development Sample.input Sample.t0 Sample.fresh
          = (Returned r, e1)
        /\ Js.startsWith (pr_token r) "ca_development_" = true
        /\ fst (validate Sample.platform (Some (pr_token r)) Sample.t0 e1)
           = Returned (Invalid "Invalid token format")).
Proof.
  split; [reflexivity|].
  split; [vm_compute; reflexivity|].
  split.
  - eexists _, _, _. split; [vm_compute; reflexivity|].
    split; vm_compute; reflexivity.
  - eexists _, _. split; [vm_compute; reflexivity|].
    split; vm_compute; reflexivity.
Qed.

(** * Further properties of the code *)

(** ** Rate limit tiers *)

Lemma includes_app xs ys x :
  Js.includes (xs ++ ys) x = Js.includes xs x || Js.includes ys x.
Proof. unfold Js.includes. apply existsb_app. Qed.

(** X1: the limit of a scope list lies between 100 and 10000, and adding
    scopes to a list never lowers its limit. *)
Theorem getRateLimit_grows_with_scope scope extra :
  100 <= requests (getRateLimit scope)
  /\ requests (getRateLimit scope) <= requests (getRateLimit (scope ++ extra))
  /\ requests (getRateLimit (scope ++ extra)) <= 10000.
Proof.
  unfold getRateLimit. rewrite !includes_app, List.length_app, Nat2Z.inj_add.
  destruct (Js.includes scope "admin:*"), (Js.includes extra "admin:*"),
    (Js.includes scope "service:*"), (Js.includes extra "service:*"); cbn;
    destruct (Z.ltb_spec 3 (Z.of_nat (List.length scope)));
    destruct (Z.ltb_spec 3 (Z.of_nat (List.length scope) + Z.of_nat (List.length extra)));
    cbn; lia.
Qed.

(** ** Identifiers *)

Lemma string_length_app s1 s2 :
  String.length (s1 +:+ s2) = (String.length s1 + String.length s2)%nat.
Proof.
  induction s1 as [|c s1 IH]; [reflexivity|].
  change (String c s1 +:+ s2) with (String c (s1 +:+ s2)). cbn. f_equal. exact IH.
Qed.

Lemma all_chars_app p s1 s2 :
  all_chars p (s1 +:+ s2) = all_chars p s1 && all_chars p s2.
Proof.
  induction s1 as [|c s1 IH]; [reflexivity|].
  change (String c s1 +:+ s2) with (String c (s1 +:+ s2)).
  cbn. rewrite <- andb_assoc. f_equal. exact IH.
Qed.

(** Every index below 62 selects one alphanumeric character of [chars]. *)
Lemma char_at_alphanumeric i :
  (i < 62)%N ->
  String.length (char_at i) = 1%nat /\ all_chars alphanumeric (char_at i) = true.
Proof.
  intros Hi. unfold char_at.
  assert (Hn : (N.to_nat i < 62)%nat) by lia.
  generalize dependent (N.to_nat i). intros n Hn.
  do 62 (destruct n as [|n]; [split; reflexivity|]). lia.
Qed.

Lemma random_chars_shape (bytes : list N) (indexes : list nat) (start : string) :
  let result :=
    fold_left
      (fun result i =>
         result +:+ char_at (nth i bytes 0%N mod N.of_nat (String.length chars))%N)
      indexes start in
  String.length result = (String.length start + List.length indexes)%nat
  /\ all_chars alphanumeric result = all_chars alphanumeric start.
Proof.
  cbn zeta. revert start.
  induction indexes as [|i indexes IH]; intros start; cbn [fold_left List.length].
  - split; [lia|reflexivity].
  - destruct (IH (start +:+ char_at (nth i bytes 0%N mod N.of_nat (String.length chars))%N))
      as [Hlen Hall].
    destruct (char_at_alphanumeric (nth i bytes 0 mod N.of_nat (String.length chars))%N)
      as [H1 Ha]; [apply N.mod_lt; discriminate|].
    rewrite Hlen, Hall, string_length_app, all_chars_app, H1, Ha.
    split; [lia|apply andb_true_r].
Qed.

(** X2: whatever bytes the generator returns, [randomString(length)]
    returns [length] characters of [A-Za-z0-9] and makes one call of
    [crypto.randomBytes]; [generateTokenId] returns [tok_] followed by
    twenty such characters. *)
Theorem randomString_shape P length e :
  (exists result,
     randomString P length e = (Returned result, set_randomCalls (S (randomCalls e)) e)
     /\ String.length result = length
     /\ all_chars alphanumeric result = true)
  /\ (exists result,
        fst (generateTokenId P e) = Returned ("tok_" +:+ result)
        /\ String.length result = 20%nat
        /\ all_chars alphanumeric result = true).
Proof.
  split.
  - eexists. split; [reflexivity|].
    destruct (random_chars_shape (randomBytes P (randomCalls e) length) (seq 0 length) "")
      as [Hlen Hall].
    rewrite Hlen, Hall, length_seq. split; reflexivity.
  - eexists. split; [reflexivity|].
    destruct (random_chars_shape (randomBytes P (randomCalls e) 20) (seq 0 20) "")
      as [Hlen Hall].
    rewrite Hlen, Hall. split; reflexivity.
Qed.

(** X3: under an [ENVIRONMENT] that is unset, empty, [production],
    [live], [test] or [dev], every token that [generateToken] builds
    passes [isValidTokenFormat]. *)
Theorem generated_token_passes_format_gate P cfg tokenId chittyId service now :
  In (ENVIRONMENT cfg)
     [None; Some ""; Some "production"; Some "live"; Some "test"; Some "dev"] ->
  isValidTokenFormat (generateToken P cfg tokenId chittyId service now) = true.
Proof.
  intros H. unfold generateToken.
  generalize (base64url P
                (tokenId +:+ "_" +:+ pretty now +:+ "_"
                 +:+ signPayload P cfg
                       (tokenId +:+ ":" +:+ chittyId +:+ ":" +:+ service +:+ ":"
                        +:+ pretty now))).
  intros encoded.
  destruct H as [<-|[<-|[<-|[<-|[<-|[<-|[]]]]]]]; destruct encoded; reflexivity.
Qed.

Lemma generated_token_passes_format_gate_witness :
  isValidTokenFormat
    (generateToken Sample.platform Sample.config "tok_AAAAAAAAAAAAAAAAAAAA"
       "03-1-USA-0001-P-251-3-82" "chittyid" Sample.t0) = true.
Proof.
  apply (generated_token_passes_format_gate Sample.platform Sample.config).
  left. reflexivity.
Defined.

(** ** The text under a Bearer prefix *)

Lemma ws_one_shorter s rest :
  Js.ws_one s = Some rest -> (String.length rest < String.length s)%nat.
Proof.
  unfold Js.ws_one. destruct s as [|c [|c2 [|c3 s3]]]; cbn [String.length];
    repeat case_match; intros [= <-]; cbn [String.length]; lia.
Qed.

Lemma skip_ws_upto_shape n s :
  (String.length s <= n)%nat ->
  Js.ws_one (Js.skip_ws_upto n s) = None
  /\ (String.length (Js.skip_ws_upto n s) <= String.length s)%nat.
Proof.
  revert s. induction n as [|n IH]; intros s Hn.
  - destruct s; [split; [reflexivity|cbn; lia]|cbn in Hn; lia].
  - cbn [Js.skip_ws_upto]. destruct (Js.ws_one s) as [rest|] eqn:Hw.
    + pose proof (ws_one_shorter s rest Hw).
      destruct (IH rest) as [Hnone Hlen]; [lia|]. split; [exact Hnone|lia].
    + split; [exact Hw|lia].
Qed.

Lemma match_ci_length pat s rest :
  Js.match_ci pat s = Some rest ->
  String.length s = (String.length pat + String.length rest)%nat.
Proof.
  revert s. induction pat as [|p pat IH]; intros s; cbn [Js.match_ci String.length].
  - intros [= ->]. reflexivity.
  - destruct s as [|c s]; [discriminate|].
    destruct (Ascii.eqb p (Js.lower c)); [|discriminate].
    intros H. cbn [String.length]. rewrite (IH s H). reflexivity.
Qed.

(** X4: when a string carries a Bearer prefix, what [validate] goes on
    with is at least seven characters shorter and starts with no white
    space: the prefix goes with the whole run of white space after it. *)
Theorem stripped_token_has_no_leading_space s :
  Js.hasBearerPrefix s = true ->
  Js.ws_one (Js.stripBearer s) = None
  /\ (String.length (Js.stripBearer s) + 7 <= String.length s)%nat.
Proof.
  unfold Js.hasBearerPrefix, Js.stripBearer.
  destruct (Js.match_ci "bearer" s) as [rest|] eqn:Hm; [|discriminate].
  destruct (Js.ws_one rest) as [rest'|] eqn:Hw; [|discriminate].
  intros _. apply match_ci_length in Hm. apply ws_one_shorter in Hw.
  destruct (skip_ws_upto_shape (String.length rest') rest') as [Hnone Hlen]; [lia|].
  unfold Js.skip_ws. split; [exact Hnone|]. cbn [String.length] in Hm. lia.
Qed.

Lemma stripped_token_has_no_leading_space_witness :
  Js.ws_one (Js.stripBearer "bearer   ca_live_abc") = None
  /\ (String.length (Js.stripBearer "bearer   ca_live_abc") + 7
      <= String.length "bearer   ca_live_abc")%nat.
Proof.
  apply (stripped_token_has_no_leading_space "bearer   ca_live_abc"). reflexivity.
Defined.

(** ** The checksum of a local identifier *)

Lemma mod97_from_range checksum str :
  0 <= checksum < 97 -> 0 <= mod97_from checksum str < 97.
Proof.
  revert checksum. induction str as [|char rest IH]; intros checksum H; cbn [mod97_from].
  - exact H.
  - cbv zeta. repeat case_match; apply IH; try exact H; apply Z.mod_pos_bound; lia.
Qed.

Lemma mod97_from_only_counted checksum str :
  mod97_from checksum (only_counted str) = mod97_from checksum str.
Proof.
  revert checksum. induction str as [|char rest IH]; intros checksum; [reflexivity|].
  cbn [only_counted mod97_from]. unfold counted. cbv zeta.
  destruct ((48 <=? Z.of_N (N_of_ascii char)) && (Z.of_N (N_of_ascii char) <=? 57)) eqn:Hd;
    cbn [orb].
  - cbn [mod97_from]. cbv zeta. rewrite Hd. apply IH.
  - destruct ((65 <=? Z.of_N (N_of_ascii char)) && (Z.of_N (N_of_ascii char) <=? 90)) eqn:Hu.
    + cbn [mod97_from]. cbv zeta. rewrite Hd, Hu. apply IH.
    + apply IH.
Qed.

(** X5: the running value of [mod97Checksum] stays below 97, the
    checksum is a number from 0 to 96 (two digits), and it depends on
    the digits and capital letters of the string only: dashes,
    lower-case letters and any other characters do not change it. *)
Theorem mod97Checksum_reads_digits_and_capitals str :
  0 <= mod97_from 0 str < 97
  /\ 0 <= mod97Checksum str <= 96
  /\ mod97Checksum (only_counted str) = mod97Checksum str.
Proof.
  split; [apply mod97_from_range; lia|].
  split.
  - unfold mod97Checksum.
    pose proof (Z.mod_pos_bound (98 - mod97_from 0 str) 97). lia.
  - unfold mod97Checksum. rewrite mod97_from_only_counted. reflexivity.
Qed.

(** ** Scope authorisation in the router *)

Lemma validateScopes_from permissions requestedScopes authorizedScopes :
  fold_left (Router.validateScope permissions) requestedScopes authorizedScopes
  = (authorizedScopes ++ List.filter (authorised permissions) requestedScopes)%list.
Proof.
  revert authorizedScopes.
  induction requestedScopes as [|scope rest IH]; intros authorizedScopes;
    cbn [fold_left List.filter].
  - rewrite app_nil_r. reflexivity.
  - rewrite IH. unfold Router.validateScope, authorised.
    destruct (String.eqb scope "admin:*").
    + destruct (Js.includes permissions "admin"); [|reflexivity].
      rewrite <- app_assoc. reflexivity.
    + destruct (Js.includes permissions (Router.permissionKey scope)
                || Js.includes permissions (Router.wildcardKey scope)); [|reflexivity].
      rewrite <- app_assoc. reflexivity.
Qed.

Lemma includes_In xs x : Js.includes xs x = true <-> In x xs.
Proof.
  unfold Js.includes. rewrite existsb_exists. split.
  - intros (y & Hin & Heq). apply String.eqb_eq in Heq. subst. exact Hin.
  - intros Hin. exists x. split; [exact Hin|apply String.eqb_refl].
Qed.

(** X6: [validateScopes] authorises exactly the requested scopes that
    the permissions cover, in the order of the request: [admin:*] only
    by the permission [admin], any other scope by the permission
    [service.action] or [service.*]. A scope that was not requested is
    never authorised, and with no permissions nothing is. *)
Theorem validateScopes_authorises_requested_and_permitted requestedScopes permissions scope :
  (In scope (Router.validateScopes requestedScopes permissions) <->
   In scope requestedScopes
   /\ (scope = "admin:*" -> In "admin" permissions)
   /\ (scope <> "admin:*" ->
       In (Router.permissionKey scope) permissions
       \/ In (Router.wildcardKey scope) permissions))
  /\ sublist (Router.validateScopes requestedScopes permissions) requestedScopes
  /\ Router.validateScopes requestedScopes [] = [].
Proof.
  unfold Router.validateScopes. rewrite !validateScopes_from. cbn [app].
  split; [|split].
  - rewrite filter_In. unfold authorised.
    destruct (String.eqb_spec scope "admin:*") as [->|Hne].
    + rewrite includes_In. intuition congruence.
    + rewrite orb_true_iff, !includes_In. intuition congruence.
  - induction requestedScopes as [|s rest IH]; cbn [List.filter]; [constructor|].
    destruct (authorised permissions s); [apply sublist_skip|apply sublist_cons]; exact IH.
  - induction requestedScopes as [|s rest IH]; cbn [List.filter]; [reflexivity|].
    unfold authorised at 1. cbn. destruct (String.eqb s "admin:*"); exact IH.
Qed.

(** ** Recommended scopes *)

Lemma read_scope_is_not_admin requestedService :
  requestedService +:+ ":read" <> "admin:*".
Proof.
  intros H. destruct requestedService as [|a [|b [|c rest]]].
  - discriminate H.
  - vm_compute in H. discriminate H.
  - vm_compute in H. discriminate H.
  - apply (f_equal String.length) in H. rewrite string_length_app in H.
    cbn in H. lia.
Qed.

(** X7: [getRecommendedScopes] never returns an empty list: without a
    matching permission it grants [<service>:read]. It recommends
    [admin:*] exactly for the service [chittyid] under the permission
    [chittyid.admin]. *)
Theorem recommended_scopes_never_empty permissions requestedService :
  getRecommendedScopes permissions requestedService <> []
  /\ (In "admin:*" (getRecommendedScopes permissions requestedService) <->
      requestedService = "chittyid" /\ In "chittyid.admin" permissions)
  /\ getRecommendedScopes [] requestedService = [requestedService +:+ ":read"].
Proof.
  unfold getRecommendedScopes.
  split; [|split].
  - destruct (String.eqb requestedService "chittyid"); [|discriminate].
    destruct (Js.includes permissions "chittyid.read"),
      (Js.includes permissions "chittyid.generate"),
      (Js.includes permissions "chittyid.validate"),
      (Js.includes permissions "chittyid.admin"); discriminate.
  - rewrite <- !includes_In.
    destruct (String.eqb_spec requestedService "chittyid") as [->|Hne].
    + destruct (Js.includes permissions "chittyid.read"),
        (Js.includes permissions "chittyid.generate"),
        (Js.includes permissions "chittyid.validate"),
        (Js.includes permissions "chittyid.admin"); cbn; intuition discriminate.
    + cbn [Js.includes existsb]. rewrite orb_false_r. split.
      * intros H. apply String.eqb_eq in H. symmetry in H.
        exfalso. exact (read_scope_is_not_admin _ H).
      * intros [H _]. contradiction.
  - destruct (String.eqb requestedService "chittyid"); reflexivity.
Qed.

(** ** What no call undoes: token records and audit rows *)

Lemma row_kept_refl r : row_kept r r.
Proof. unfold row_kept. repeat split; auto; lia. Qed.

Lemma row_kept_trans r1 r2 r3 : row_kept r1 r2 -> row_kept r2 r3 -> row_kept r1 r3.
Proof.
  unfold row_kept. intros (?&?&?&?&?&?&?&?&?) (?&?&?&?&?&?&?&?&?).
  repeat split; try congruence; [lia|auto].
Qed.

Lemma rows_kept_refl rows : rows_kept rows rows.
Proof.
  exists rows, []. split; [symmetry; apply app_nil_r|].
  induction rows; constructor; [apply row_kept_refl|assumption].
Qed.

Lemma rows_kept_trans rows1 rows2 rows3 :
  rows_kept rows1 rows2 -> rows_kept rows2 rows3 -> rows_kept rows1 rows3.
Proof.
  intros (kept1 & added1 & -> & H1) (kept2 & added2 & -> & H2).
  apply Forall2_app_inv_l in H2 as (k & a & Hk & _ & ->).
  exists k, (a ++ added2)%list. split; [symmetry; apply app_assoc|].
  clear - H1 Hk. revert k Hk.
  induction H1 as [|r r' rows rows' Hr _ IH]; intros k Hk.
  - inversion Hk. constructor.
  - inversion Hk as [|? r'' ? k' Hr' Hk']; subst. constructor.
    + exact (row_kept_trans _ _ _ Hr Hr').
    + apply IH, Hk'.
Qed.

Lemma rows_kept_added rows added : rows_kept rows (rows ++ added).
Proof.
  exists rows, added. split; [reflexivity|].
  induction rows; constructor; [apply row_kept_refl|assumption].
Qed.

Lemma rows_kept_map (f : TokenRow -> TokenRow) rows :
  (forall r, row_kept r (f r)) -> rows_kept rows (map f rows).
Proof.
  intros Hf. exists (map f rows), []. split; [symmetry; apply app_nil_r|].
  induction rows; constructor; [apply Hf|assumption].
Qed.

#[local] Instance table_kept_preorder : PreOrder table_kept.
Proof.
  split.
  - intros e. unfold table_kept. destruct (AUTH_DB e); [|exact I].
    split; [apply rows_kept_refl|reflexivity].
  - intros e1 e2 e3. unfold table_kept.
    destruct (AUTH_DB e1), (AUTH_DB e2), (AUTH_DB e3); try tauto.
    intros [H1 P1] [H2 P2]. split; [eapply rows_kept_trans; eassumption|].
    etrans; eassumption.
Qed.

Lemma table_kept_same e e' : AUTH_DB e' = AUTH_DB e -> table_kept e e'.
Proof.
  intros H. unfold table_kept. rewrite H. destruct (AUTH_DB e); [|exact I].
  split; [apply rows_kept_refl|reflexivity].
Qed.

Section Preservation.
Context (R : Env -> Env -> Prop) `{!PreOrder R}.

Lemma preserves_ret {A} (a : A) : preserves R (ret a).
Proof. intros e. reflexivity. Qed.

Lemma preserves_throw {A} message : preserves R (@throw A message).
Proof. intros e. reflexivity. Qed.

Lemma preserves_env : preserves R env.
Proof. intros e. reflexivity. Qed.

Lemma preserves_update f : (forall e, R e (f e)) -> preserves R (update f).
Proof. intros H e. apply H. Qed.

Lemma preserves_bind {A B} (c : M A) (k : A -> M B) :
  preserves R c -> (forall a, preserves R (k a)) -> preserves R (bind c k).
Proof.
  intros Hc Hk e. unfold bind. specialize (Hc e).
  destruct (c e) as [[a|message] e1]; cbn [snd] in *; [|exact Hc].
  etrans; [exact Hc|apply Hk].
Qed.
End Preservation.

Lemma used_row_kept now tokenHash r :
  row_kept r (if String.eqb (row_token_hash r) tokenHash then used_row now r else r).
Proof.
  destruct (String.eqb (row_token_hash r) tokenHash); [|apply row_kept_refl].
  unfold row_kept, used_row. cbn. repeat split; auto; lia.
Qed.

Lemma revoked_row_kept now tokenId r :
  row_kept r (if String.eqb (row_id r) tokenId then revoked_row now r else r).
Proof.
  destruct (String.eqb (row_id r) tokenId); [|apply row_kept_refl].
  unfold row_kept, revoked_row. cbn. repeat split; auto; try lia; discriminate.
Qed.

(** One step through a computation built from [bind], [ret], [throw],
    [env], [update] and case distinctions. *)
Ltac keep_step :=
  match goal with
  | |- preserves ?R (ret _) => apply (preserves_ret R)
  | |- preserves ?R (throw _) => apply (preserves_throw R)
  | |- preserves ?R env => apply (preserves_env R)
  | |- preserves ?R (bind _ _) => apply (preserves_bind R); [|intros ?]
  | |- preserves ?R (update _) => apply (preserves_update R); intros ?
  | |- preserves _ (match ?x with _ => _ end) => destruct x
  end.

Lemma table_kept_set_db e db db' :
  AUTH_DB e = Some db ->
  rows_kept (tokens db) (tokens db') ->
  auth_events db `prefix_of` auth_events db' ->
  table_kept e (set_AUTH_DB (Some db') e).
Proof. intros H Hr Hp. unfold table_kept. rewrite H. cbn. split; assumption. Qed.

(** A write to the bindings that keeps the table, or only adds to it. *)
Ltac table_write :=
  cbv beta;
  try match goal with
      | |- table_kept _ (match ?x with _ => _ end) => destruct x eqn:?
      end;
  first
    [ reflexivity
    | apply table_kept_same; reflexivity
    | eapply table_kept_set_db;
      [ eassumption
      | cbn [tokens];
        first [apply rows_kept_refl | apply rows_kept_added
              | apply rows_kept_map; intros ?; apply used_row_kept]
      | cbn [auth_events]; first [reflexivity | eexists; reflexivity] ] ].

Section Kept.
Variable P : Platform.
Variable cfg : Config.

Lemma randomString_keeps n : preserves table_kept (randomString P n).
Proof. intros e. apply table_kept_same. reflexivity. Qed.

Lemma logAuditEvent_keeps ev now : preserves table_kept (logAuditEvent P ev now).
Proof.
  unfold logAuditEvent.
  apply (preserves_bind table_kept); [apply randomString_keeps|intros r].
  repeat keep_step; table_write.
Qed.

Lemma updateTokenUsage_keeps tokenHash tokenData now :
  preserves table_kept (updateTokenUsage tokenHash tokenData now).
Proof. unfold updateTokenUsage. cbv zeta. repeat keep_step; table_write. Qed.

Lemma checkRateLimit_keeps tokenHash tokenData now :
  preserves table_kept (checkRateLimit tokenHash tokenData now).
Proof. unfold checkRateLimit. cbv zeta. repeat keep_step; table_write. Qed.

Lemma provision_keeps x now : preserves table_kept (provision P cfg x now).
Proof.
  unfold provision, generateTokenId. cbv zeta.
  repeat first [apply logAuditEvent_keeps | apply randomString_keeps | keep_step];
    table_write.
Qed.

Lemma validate_keeps token now : preserves table_kept (validate P token now).
Proof.
  unfold validate. cbv zeta.
  repeat first [apply logAuditEvent_keeps | apply updateTokenUsage_keeps
               | apply checkRateLimit_keeps | keep_step].
Qed.

Lemma bind_keeps_at {A B} (c : M A) (k : A -> M B) e :
  table_kept e (snd (c e)) ->
  (forall a, preserves table_kept (k a)) ->
  table_kept e (snd (bind c k e)).
Proof.
  intros Hc Hk. unfold bind.
  destruct (c e) as [[a|message] e1]; cbn [snd] in *; [|exact Hc].
  etrans; [exact Hc|apply Hk].
Qed.

Lemma revoke_keeps tokenId reason now : preserves table_kept (revoke P tokenId reason now).
Proof.
  intros e. unfold revoke. cbv zeta. unfold bind at 1. cbn [env].
  apply bind_keeps_at;
    [|intros _; repeat first [apply logAuditEvent_keeps | keep_step]].
  destruct (AUTH_DB e) as [db|] eqn:Hdb; [|reflexivity].
  apply bind_keeps_at.
  - cbn [update snd]. eapply table_kept_set_db; [exact Hdb| |reflexivity].
    unfold update_revoked_at. cbn [tokens].
    apply rows_kept_map. intros r. apply revoked_row_kept.
  - intros _. repeat keep_step; table_write.
Qed.

Lemma refresh_keeps token expiresIn now :
  preserves table_kept (refresh P cfg token expiresIn now).
Proof.
  unfold refresh.
  repeat first [apply logAuditEvent_keeps | apply validate_keeps | apply revoke_keeps
               | apply provision_keeps | keep_step].
Qed.

Lemma after_call_keeps now c e : table_kept e (after_call P cfg now c e).
Proof.
  destruct c as [x|token|tokenId reason|token expiresIn|cache]; cbn [after_call].
  - apply provision_keeps.
  - apply validate_keeps.
  - apply revoke_keeps.
  - apply refresh_keeps.
  - destruct (AUTH_TOKENS e); [apply table_kept_same|]; reflexivity.
Qed.

Lemma after_calls_keep history : forall e, table_kept e (after_calls P cfg history e).
Proof.
  induction history as [|[now c] history IH]; intros e; cbn [after_calls].
  - reflexivity.
  - etrans; [apply after_call_keeps|apply IH].
Qed.

End Kept.

(** X8: through any history of calls of [provision], [validate],
    [revoke] and [refresh], no token record is removed or moved, none
    changes its identifier, hash, subject, scope or expiry, no
    [request_count] decreases, a record that is revoked stays revoked,
    and records are added at the end of the table only. *)
Theorem token_records_are_never_lost P cfg history e db :
  AUTH_DB e = Some db ->
  exists db',
    AUTH_DB (after_calls P cfg history e) = Some db'
    /\ rows_kept (tokens db) (tokens db').
Proof.
  intros Hdb. pose proof (after_calls_keep P cfg history e) as H.
  unfold table_kept in H. rewrite Hdb in H.
  destruct (AUTH_DB (after_calls P cfg history e)) as [db'|]; [|contradiction].
  exists db'. split; [reflexivity|apply H].
Qed.

(** X9: the audit table is append-only: after any history of calls the
    earlier audit rows are still there, in order, before the new ones. *)
Theorem audit_rows_are_only_appended P cfg history e :
  events e `prefix_of` events (after_calls P cfg history e).
Proof.
  pose proof (after_calls_keep P cfg history e) as H.
  unfold table_kept, events in *.
  destruct (AUTH_DB e) as [db|], (AUTH_DB (after_calls P cfg history e)) as [db'|];
    try contradiction; [apply H|reflexivity].
Qed.

Lemma token_records_are_never_lost_witness :
  exists db',
    AUTH_DB (after_calls Sample.platform Sample.config
               [(Sample.t0 + 1000, CallValidate (Some Sample.token));
                (Sample.t0 + 2000, CallRefresh (Some Sample.token) None);
                (Sample.t0 + 3000, CallRevoke Sample.token_id None)]
               Sample.issued) = Some db'
    /\ rows_kept
         (tokens (default {| tokens := []; auth_events := [] |} (AUTH_DB Sample.issued)))
         (tokens db').
Proof.
  apply (token_records_are_never_lost Sample.platform Sample.config).
  vm_compute. reflexivity.
Defined.

(** ** The rate limit within one second *)

Lemma same_second_close now now' : now / 1000 = now' / 1000 -> now' < now + 3600 * 1000.
Proof.
  intros H.
  pose proof (Z.div_mod now 1000 ltac:(lia)).
  pose proof (Z.div_mod now' 1000 ltac:(lia)).
  pose proof (Z.mod_pos_bound now 1000 ltac:(lia)).
  pose proof (Z.mod_pos_bound now' 1000 ltac:(lia)).
  lia.
Qed.

(** X10: with the rate-limit namespace bound, a call of
    [checkRateLimit] below the limit returns [limit - count - 1] and
    raises by one the count that any call within the same second reads. *)
Theorem checkRateLimit_counts_within_a_second tokenHash tokenData now now' e kv :
  AUTH_RATE_LIMITS e = Some kv ->
  now / 1000 = now' / 1000 ->
  currentCount tokenHash now e < requests (getRateLimit (scope tokenData)) ->
  exists e',
    checkRateLimit tokenHash tokenData now e
      = (Returned (requests (getRateLimit (scope tokenData))
                   - currentCount tokenHash now e - 1), e')
    /\ currentCount tokenHash now' e' = currentCount tokenHash now e + 1.
Proof.
  intros Hkv Hsec Hlt.
  eexists. split; [apply (checkRateLimit_counted _ _ _ _ kv Hkv Hlt)|].
  unfold currentCount at 1. cbn [AUTH_RATE_LIMITS set_AUTH_RATE_LIMITS].
  assert (Hkey : rateLimitKey tokenHash now' = rateLimitKey tokenHash now)
    by (apply rateLimitKey_per_second; symmetry; exact Hsec).
  rewrite Hkey. unfold KV.get, KV.put. rewrite lookup_insert_eq.
  pose proof (same_second_close now now' Hsec).
  destruct (Z.ltb_spec now' (now + 3600 * 1000)); [reflexivity|lia].
Qed.

Lemma checkRateLimit_counts_within_a_second_witness :
  exists e',
    checkRateLimit "h" (provisioned_data Sample.input Sample.t0 Sample.provisioned)
      Sample.t0 Sample.fresh
    = (Returned (requests (getRateLimit
                             (scope (provisioned_data Sample.input Sample.t0
                                       Sample.provisioned)))
                 - currentCount "h" Sample.t0 Sample.fresh - 1), e')
    /\ currentCount "h" (Sample.t0 + 999) e' = currentCount "h" Sample.t0 Sample.fresh + 1.
Proof.
  apply (checkRateLimit_counts_within_a_second "h" _ Sample.t0 (Sample.t0 + 999)
           Sample.fresh ∅); reflexivity.
Defined.

(** ** Usage *)

Lemma updateTokenUsage_rows tokenHash tokenData now e :
  tokens <$> AUTH_DB (snd (updateTokenUsage tokenHash tokenData now e))
  = used_rows tokenHash now <$> AUTH_DB e.
Proof.
  unfold updateTokenUsage, bind, update, env, ret.
  destruct e as [[db|] [tk|] rv rl au n]; cbn; try destruct (0 <? _); reflexivity.
Qed.

Lemma accepted_token_rows P tokenHash tokenData now e :
  tokens <$> AUTH_DB (snd (accepted_token P tokenHash tokenData now e))
  = used_rows tokenHash now <$> AUTH_DB e.
Proof.
  pose proof (updateTokenUsage_rows tokenHash tokenData now e) as Hrows.
  destruct (accepted_token_outcome P tokenHash tokenData now e)
    as (td & e1 & Hu & Hcases).
  rewrite Hu in Hrows. cbn [snd] in Hrows.
  destruct Hcases as [(_ & _ & ->)|(n & e2 & Hn & _)]; [exact Hrows|].
  unfold accepted_token, bind. rewrite Hu.
  destruct Hn as [(Hnone & _)|(Hsome & Hlt & _)].
  - rewrite (checkRateLimit_unbound _ _ _ _ Hnone), logAuditEvent_returns.
    cbn [snd ret]. rewrite logged_tokens. exact Hrows.
  - destruct (AUTH_RATE_LIMITS e1) as [kv|] eqn:Hkv; [|contradiction].
    destruct (updateTokenUsage_returns tokenHash tokenData now e)
      as (td2 & e3 & Hu2 & _ & _ & Hsc & _).
    rewrite Hu in Hu2. injection Hu2 as <- <-. rewrite <- Hsc in Hlt.
    rewrite (checkRateLimit_counted _ _ _ _ kv Hkv Hlt), logAuditEvent_returns.
    cbn [snd ret]. rewrite logged_tokens. exact Hrows.
Qed.

Lemma validate_rows_unless_refused P tok now e :
  (forall error, fst (validate P (Some tok) now e) <> Returned (Invalid error)) ->
  tokens <$> AUTH_DB (snd (validate P (Some tok) now e))
  = used_rows (hashToken P (Js.stripBearer tok)) now <$> AUTH_DB e.
Proof.
  validate_branch P tok now e td; cbn [fst]; intros Hnot;
    try (exfalso; eapply Hnot; reflexivity).
  apply accepted_token_rows.
Qed.

(** X11: every validation that is not refused counts as one use: when
    [validate] returns valid, and also when it throws
    [Rate limit exceeded], the records with the hash of the token have
    [request_count] raised by one and [last_used_at] set to the instant
    of the call, and no other record changes. *)
Theorem usage_counted_unless_refused P tok now e :
  (forall error, fst (validate P (Some tok) now e) <> Returned (Invalid error)) ->
  tokens <$> AUTH_DB (snd (validate P (Some tok) now e))
  = used_rows (hashToken P (Js.stripBearer tok)) now <$> AUTH_DB e.
Proof. apply validate_rows_unless_refused. Qed.

Lemma usage_counted_unless_refused_witness :
  tokens <$> AUTH_DB (snd (validate Sample.platform (Some Sample.token) Sample.t0
                             Sample.exhausted))
  = used_rows (hashToken Sample.platform (Js.stripBearer Sample.token)) Sample.t0
    <$> AUTH_DB Sample.exhausted.
Proof.
  apply (usage_counted_unless_refused Sample.platform Sample.token Sample.t0
           Sample.exhausted).
  intros error. vm_compute. discriminate.
Defined.

(** ** Refresh *)

Lemma refused_validation_state P token now e error e' :
  validate P token now e = (Returned (Invalid error), e') ->
  In error validationErrors
  /\ tokens <$> AUTH_DB e' = tokens <$> AUTH_DB e
  /\ AUTH_TOKENS e' = AUTH_TOKENS e
  /\ AUTH_REVOCATIONS e' = AUTH_REVOCATIONS e
  /\ AUTH_RATE_LIMITS e' = AUTH_RATE_LIMITS e.
Proof.
  destruct token as [tok|]; [|intros [= <- <-]; cbn; auto 10].
  validate_branch P tok now e td.
  - intros [= <- <-]. cbn. auto 10.
  - intros [= <- <-].
    rewrite logged_tokens, logged_AUTH_TOKENS, logged_AUTH_REVOCATIONS,
      logged_AUTH_RATE_LIMITS. cbn. auto 10.
  - intros [= <- <-].
    rewrite logged_tokens, logged_AUTH_TOKENS, logged_AUTH_REVOCATIONS,
      logged_AUTH_RATE_LIMITS. cbn. auto 10.
  - intros [= <- <-].
    rewrite logged_tokens, logged_AUTH_TOKENS, logged_AUTH_REVOCATIONS,
      logged_AUTH_RATE_LIMITS. cbn. auto 10.
  - destruct (accepted_token_outcome P (hashToken P (Js.stripBearer tok)) td now e)
      as (td' & e1 & _ & [(_ & _ & ->)|(n & e2 & _ & -> & _)]); discriminate.
Qed.

(** What [refresh] does once [validate] has answered. *)
Lemma refresh_after_validate P cfg token expiresIn now e :
  refresh P cfg token expiresIn now e =
    match validate P token now e with
    | (Returned (Invalid error), e1) => (Returned (NotRefreshed error), e1)
    | (Returned (Valid v), e1) =>
        match provision P cfg
                {| p_chittyId := Some (v_chittyId v); p_scope := Some (v_scope v);
                   p_service := v_service v; p_expiresIn := expiresIn |} now
                (snd (revoke P (v_tokenId v) (Some "Token refreshed") now e1)) with
        | (Returned newToken, e3) =>
            (Returned (Refreshed newToken),
             logged P (with_chittyId (v_chittyId v)
                         (with_newTokenId (pr_tokenId newToken)
                            (with_tokenId (v_tokenId v)
                               (event "token_refreshed" true now)))) now e3)
        | (Thrown message, e3) => (Thrown message, e3)
        end
    | (Thrown message, e1) => (Thrown message, e1)
    end.
Proof.
  unfold refresh, bind.
  destruct (validate P token now e) as [[[v|error]|message] e1]; try reflexivity.
  destruct (revoke_returns P (v_tokenId v) (Some "Token refreshed") now e1)
    as (e2 & -> & _).
  cbn [snd].
  destruct (provision P cfg _ now e2) as [[newToken|message] e3]; reflexivity.
Qed.

(** X12: a refresh that is refused changes no token state: when
    [refresh] returns [{ success: false, error }], the error is one of
    the four messages of [validate], and the token records, the token
    cache and the revocation markers are as before the call. *)
Theorem refused_refresh_changes_nothing P cfg token expiresIn now e error e' :
  refresh P cfg token expiresIn now e = (Returned (NotRefreshed error), e') ->
  In error validationErrors
  /\ tokens <$> AUTH_DB e' = tokens <$> AUTH_DB e
  /\ AUTH_TOKENS e' = AUTH_TOKENS e
  /\ AUTH_REVOCATIONS e' = AUTH_REVOCATIONS e.
Proof.
  rewrite refresh_after_validate.
  destruct (validate P token now e) as [[[v|err]|message] e1] eqn:Hv.
  - destruct (provision P cfg _ now _) as [[newToken|message] e3]; discriminate.
  - intros [= <- <-].
    destruct (refused_validation_state P token now e err e1 Hv) as (?&?&?&?&?). auto.
  - discriminate.
Qed.

Lemma refused_refresh_changes_nothing_witness :
  In "Token not found" validationErrors
  /\ tokens <$> AUTH_DB (snd (refresh Sample.platform Sample.config
                                (Some "ca_live_unknown") (Some 3600) Sample.t0
                                Sample.issued))
     = tokens <$> AUTH_DB Sample.issued
  /\ AUTH_TOKENS (snd (refresh Sample.platform Sample.config
                         (Some "ca_live_unknown") (Some 3600) Sample.t0 Sample.issued))
     = AUTH_TOKENS Sample.issued
  /\ AUTH_REVOCATIONS (snd (refresh Sample.platform Sample.config
                              (Some "ca_live_unknown") (Some 3600) Sample.t0
                              Sample.issued))
     = AUTH_REVOCATIONS Sample.issued.
Proof.
  apply (refused_refresh_changes_nothing Sample.platform Sample.config
           (Some "ca_live_unknown") (Some 3600) Sample.t0 Sample.issued).
  vm_compute. reflexivity.
Defined.

(** X13: when [validate] returns a token without a service, as it does
    for a token read from the table, [refresh] revokes the token and
    then throws [Missing required parameters] out of [provision]: the
    old token is gone and no new one is made. *)
Theorem refresh_without_service_revokes_and_throws P cfg token expiresIn now e v e1 :
  validate P token now e = (Returned (Valid v), e1) ->
  Js.truthy (v_service v) = false ->
  refresh P cfg token expiresIn now e
  = (Thrown "Missing required parameters: chittyId, scope, service",
     snd (revoke P (v_tokenId v) (Some "Token refreshed") now e1)).
Proof.
  intros Hv Hs. rewrite refresh_after_validate, Hv.
  rewrite provision_missing; [reflexivity|]. cbn. auto.
Qed.

Lemma refresh_without_service_revokes_and_throws_witness :
  refresh Sample.platform Sample.config (Some Sample.token) None (Sample.t0 + 3599700)
    Sample.drifted
  = (Thrown "Missing required parameters: chittyId, scope, service",
     snd (revoke Sample.platform (v_tokenId Sample.served) (Some "Token refreshed")
            (Sample.t0 + 3599700)
            (snd (validate Sample.platform (Some Sample.token) (Sample.t0 + 3599700)
                    Sample.drifted)))).
Proof.
  apply (refresh_without_service_revokes_and_throws Sample.platform Sample.config
           (Some Sample.token) None (Sample.t0 + 3599700) Sample.drifted Sample.served);
    vm_compute; reflexivity.
Defined.

Lemma select_token_hash_used tokenId tokenHash now db db' :
  tokens db' = used_rows tokenHash now db ->
  select_token_hash tokenId db' = select_token_hash tokenId db.
Proof.
  unfold select_token_hash, used_rows. intros ->.
  induction (tokens db) as [|r rows IH]; [reflexivity|].
  cbn [map find].
  destruct (String.eqb (row_token_hash r) tokenHash); cbn [used_row row_id];
    destruct (String.eqb (row_id r) tokenId); try reflexivity; exact IH.
Qed.

Lemma provision_returned P cfg x now e r e' :
  provision P cfg x now e = (Returned r, e') ->
  Js.truthy (p_chittyId x) = true
  /\ Js.truthy (p_service x) = true
  /\ p_scope x = Some (pr_scope r)
  /\ pr_expiresAt r
     = now + match p_expiresIn x with
             | Some 0 | None => defaultExpiry cfg
             | Some n => n
             end * 1000.
Proof.
  intros Hp.
  destruct (Js.truthy (p_chittyId x)) eqn:Hc;
    [|rewrite provision_missing in Hp by auto; discriminate Hp].
  destruct (p_scope x) as [scope|] eqn:Hs;
    [|rewrite provision_missing in Hp by auto; discriminate Hp].
  destruct (Js.truthy (p_service x)) eqn:Hv;
    [|rewrite provision_missing in Hp by auto; discriminate Hp].
  destruct (Js.validDate (provisionExpiry cfg x now)) eqn:Hd.
  2: { destruct (provision_invalid_date P cfg x now e scope Hc Hs Hv Hd)
         as (tokenId & token & e0 & Hp' & _).
       rewrite Hp in Hp'. discriminate Hp'. }
  destruct (provision_returns P cfg x now e scope Hc Hs Hv Hd)
    as (r' & e1' & Hp' & Hsc & Hexp & _).
  rewrite Hp in Hp'. injection Hp' as <- <-.
  rewrite Hsc. auto.
Qed.

Lemma provision_returned_date P cfg x now e r e' :
  provision P cfg x now e = (Returned r, e') ->
  Js.validDate (provisionExpiry cfg x now) = true.
Proof.
  intros Hp.
  destruct (provision_returned P cfg x now e r e' Hp) as (Hc & Hv & Hs & _).
  destruct (Js.validDate (provisionExpiry cfg x now)) eqn:Hd; [reflexivity|].
  destruct (provision_invalid_date P cfg x now e _ Hc Hs Hv Hd)
    as (tokenId & token & e0 & Hp' & _).
  rewrite Hp in Hp'. discriminate Hp'.
Qed.

(** X14: once [validate] has accepted the token, [refresh] revokes it,
    whether the new token is made or [provision] throws: with the table
    and the revocation namespace bound and the record of the validated
    identifier carrying the hash of the token, every later [validate]
    of the old token returns [Token has been revoked] for ninety days. *)
Theorem refresh_revokes_the_old_token P cfg tok expiresIn now e v e1 db now' :
  validate P (Some tok) now e = (Returned (Valid v), e1) ->
  AUTH_DB e = Some db ->
  select_token_hash (v_tokenId v) db = Some (hashToken P (Js.stripBearer tok)) ->
  AUTH_REVOCATIONS e <> None ->
  now' < now + 86400 * 90 * 1000 ->
  fst (validate P (Some tok) now' (snd (refresh P cfg (Some tok) expiresIn now e)))
  = Returned (Invalid "Token has been revoked").
Proof.
  intros Hv Hdb Hrow Hrv Hnow.
  set (h := hashToken P (Js.stripBearer tok)) in *.
  assert (Hf : isValidTokenFormat (Js.stripBearer tok) = true).
  { destruct (isValidTokenFormat (Js.stripBearer tok)) eqn:Hf; [reflexivity|].
    rewrite (validate_malformed P tok now e Hf) in Hv. discriminate Hv. }
  assert (Hrows : tokens <$> AUTH_DB e1 = used_rows h now <$> AUTH_DB e).
  { pose proof (validate_rows_unless_refused P tok now e) as H.
    rewrite Hv in H. apply H. intros error. discriminate. }
  pose proof (validate_AUTH_REVOCATIONS P (Some tok) now e) as Hrv1.
  rewrite Hv in Hrv1. cbn [snd] in Hrv1.
  rewrite Hdb in Hrows. destruct (AUTH_DB e1) as [db1|] eqn:Hdb1; [|discriminate Hrows].
  cbn in Hrows. injection Hrows as Hrows.
  assert (Hm : marker_until ("revoked:" +:+ h) (now + 86400 * 90 * 1000)
                 (snd (refresh P cfg (Some tok) expiresIn now e))).
  { rewrite refresh_after_validate, Hv.
    destruct (revoke_returns P (v_tokenId v) (Some "Token refreshed") now e1)
      as (e2 & He2 & _ & Hrv2 & _).
    rewrite He2. cbn [snd].
    rewrite Hdb1 in Hrv2. cbn in Hrv2.
    rewrite (select_token_hash_used _ _ _ _ _ Hrows), Hrow, Hrv1 in Hrv2.
    destruct (AUTH_REVOCATIONS e) as [kv|]; [|contradiction]. cbn in Hrv2.
    assert (Hm2 : marker_until ("revoked:" +:+ h) (now + 86400 * 90 * 1000) e2).
    { unfold marker_until. rewrite Hrv2. unfold KV.put.
      eexists _, _, _. split; [reflexivity|]. rewrite lookup_insert_eq.
      split; [reflexivity|lia]. }
    match goal with
    | |- context [provision P cfg ?x now e2] =>
        pose proof (provision_AUTH_REVOCATIONS P cfg x now e2) as Hp;
        destruct (provision P cfg x now e2) as [[r|message] e3]
    end; cbn [snd] in *.
    - eapply marker_until_same; [|exact Hm2].
      rewrite logged_AUTH_REVOCATIONS. exact Hp.
    - eapply marker_until_same; [exact Hp|exact Hm2]. }
  destruct (marker_until_read _ _ now' _ Hm Hnow) as (rv & Hread).
  rewrite (validate_revoked P tok now' _ rv Hf Hread). reflexivity.
Qed.

Lemma refresh_revokes_the_old_token_witness :
  fst (validate Sample.platform (Some Sample.token) (Sample.t0 + 3599800)
         (snd (refresh Sample.platform Sample.config (Some Sample.token) None
                 (Sample.t0 + 3599700) Sample.drifted)))
  = Returned (Invalid "Token has been revoked").
Proof.
  apply (refresh_revokes_the_old_token Sample.platform Sample.config Sample.token None
           (Sample.t0 + 3599700) Sample.drifted Sample.served
           (snd (validate Sample.platform (Some Sample.token) (Sample.t0 + 3599700)
                   Sample.drifted))
           (default {| tokens := []; auth_events := [] |} (AUTH_DB Sample.drifted))).
  - vm_compute. reflexivity.
  - vm_compute. reflexivity.
  - vm_compute. reflexivity.
  - vm_compute. discriminate.
  - vm_compute. reflexivity.
Defined.

(** X15: a refresh that succeeds returns a token with the scope of the
    validated token, and its lifetime is counted from the refresh:
    [expiresIn] seconds, or the default when [expiresIn] is left out or
    is 0. *)
Theorem refreshed_token_keeps_scope P cfg token expiresIn now e r e' :
  refresh P cfg token expiresIn now e = (Returned (Refreshed r), e') ->
  exists v e1,
    validate P token now e = (Returned (Valid v), e1)
    /\ pr_scope r = v_scope v
    /\ pr_expiresAt r
       = now + match expiresIn with
               | Some 0 | None => defaultExpiry cfg
               | Some n => n
               end * 1000.
Proof.
  rewrite refresh_after_validate.
  destruct (validate P token now e) as [[[v|err]|message] e1]; try discriminate.
  destruct (provision P cfg _ now _) as [[newToken|message] e3] eqn:Hp; [|discriminate].
  intros [= <- _].
  destruct (provision_returned P cfg _ now _ _ _ Hp) as (_ & _ & Hs & Hx).
  cbn in Hs, Hx. injection Hs as Hs.
  exists v, e1. split; [reflexivity|]. split; [symmetry; exact Hs|exact Hx].
Qed.

Lemma refreshed_token_keeps_scope_witness :
  exists v e1,
    validate Sample.platform (Some Sample.token) (Sample.t0 + 1000) Sample.issued
      = (Returned (Valid v), e1)
    /\ pr_scope (match fst (refresh Sample.platform Sample.config (Some Sample.token)
                                (Some 7200) (Sample.t0 + 1000) Sample.issued) with
                 | Returned (Refreshed r) => r
                 | _ => Sample.provisioned
                 end) = v_scope v
    /\ pr_expiresAt (match fst (refresh Sample.platform Sample.config (Some Sample.token)
                                    (Some 7200) (Sample.t0 + 1000) Sample.issued) with
                     | Returned (Refreshed r) => r
                     | _ => Sample.provisioned
                     end)
       = Sample.t0 + 1000 + 7200 * 1000.
Proof.
  apply (refreshed_token_keeps_scope Sample.platform Sample.config (Some Sample.token)
           (Some 7200) (Sample.t0 + 1000) Sample.issued _
           (snd (refresh Sample.platform Sample.config (Some Sample.token)
                   (Some 7200) (Sample.t0 + 1000) Sample.issued))).
  vm_compute. reflexivity.
Defined.

(** ** Statistics *)



Lemma sum_case_map_le (p q : TokenRow -> bool) (f : TokenRow -> TokenRow) rows :
  (forall r, q (f r) = true -> p r = true) ->
  sum_case q (map f rows) <= sum_case p rows.
Proof.
  intros H. induction rows as [|r rows IH]; cbn [map sum_case fold_right]; [lia|].
  fold (sum_case q (map f rows)). fold (sum_case p rows).
  specialize (H r). destruct (q (f r)), (p r); first [lia|discriminate (H eq_refl)].
Qed.

Lemma sum_case_map_ge (p q : TokenRow -> bool) (f : TokenRow -> TokenRow) rows :
  (forall r, p r = true -> q (f r) = true) ->
  sum_case p rows <= sum_case q (map f rows).
Proof.
  intros H. induction rows as [|r rows IH]; cbn [map sum_case fold_right]; [lia|].
  fold (sum_case q (map f rows)). fold (sum_case p rows).
  specialize (H r). destruct (q (f r)), (p r); first [lia|discriminate (H eq_refl)].
Qed.

(** X17: a [revoke] never adds to the tokens that [getStats] counts as
    active and never takes from those it counts as revoked; the total
    and the expired count stay as they were, and so does the answer
    [Database not available]. *)
Theorem revoke_lowers_the_active_count P tokenId reason now now' e :
  match getStats now' e, getStats now' (snd (revoke P tokenId reason now e)) with
  | StatsCounts s, StatsCounts s' =>
      totalTokens s' = totalTokens s
      /\ activeTokens s' <= activeTokens s
      /\ revokedTokens s <= revokedTokens s'
      /\ expiredTokens s' = expiredTokens s
  | StatsError _, StatsError _ => True
  | _, _ => False
  end.
Proof.
  destruct (revoke_returns P tokenId reason now e) as (e' & He' & Hrows & _).
  rewrite He'. cbn [snd]. unfold getStats.
  destruct (AUTH_DB e) as [db|], (AUTH_DB e') as [db'|]; try discriminate Hrows; [|exact I].
  cbn in Hrows. injection Hrows as Hrows.
  cbn [activeTokens revokedTokens expiredTokens totalTokens].
  rewrite Hrows, length_map.
  set (f := fun r => if String.eqb (row_id r) tokenId then revoked_row now r else r).
  split; [reflexivity|]. split; [|split].
  - apply sum_case_map_le. intros r. unfold f.
    destruct (String.eqb (row_id r) tokenId); [discriminate|auto].
  - apply sum_case_map_ge. intros r. unfold f.
    destruct (String.eqb (row_id r) tokenId); [reflexivity|auto].
  - apply Z.le_antisymm.
    + apply sum_case_map_le. intros r. unfold f.
      destruct (String.eqb (row_id r) tokenId); auto.
    + apply sum_case_map_ge. intros r. unfold f.
      destruct (String.eqb (row_id r) tokenId); auto.
Qed.

(** ** Revoking an identifier without a record *)

Lemma update_revoked_at_unknown now tokenId db :
  select_token_hash tokenId db = None ->
  update_revoked_at now tokenId db = db.
Proof.
  destruct db as [rows evs]. unfold select_token_hash, update_revoked_at. cbn [tokens auth_events].
  intros H. f_equal.
  induction rows as [|r rows IH]; [reflexivity|].
  cbn [map find] in *. destruct (String.eqb (row_id r) tokenId); [discriminate H|].
  rewrite (IH H). reflexivity.
Qed.

(** X18: [revoke] of an identifier that has no record, or with the
    table not bound, still returns success: it writes the audit event
    [token_revoked] and nothing else, so no marker is written and no
    cache entry is deleted. *)
Theorem revoke_without_record_only_logs P tokenId reason now e :
  AUTH_DB e ≫= select_token_hash tokenId = None ->
  revoke P tokenId reason now e
  = (Returned {| rr_tokenId := tokenId; rr_revokedAt := now;
                 rr_reason := default "Manual revocation" reason |},
     logged P (with_reason (default "Manual revocation" reason)
                 (with_tokenId tokenId (event "token_revoked" true now))) now e).
Proof.
  intros H. unfold revoke, bind, env, update, ret.
  destruct e as [[db|] tk rv rl au n]; cbn in H |- *.
  - rewrite select_token_hash_updated, H. cbn.
    rewrite (update_revoked_at_unknown now tokenId db H).
    rewrite logAuditEvent_returns. reflexivity.
  - rewrite logAuditEvent_returns. reflexivity.
Qed.

Lemma revoke_without_record_only_logs_witness :
  revoke Sample.platform "tok_unknown" None (Sample.t0 + 1000) Sample.issued
  = (Returned {| rr_tokenId := "tok_unknown"; rr_revokedAt := Sample.t0 + 1000;
                 rr_reason := "Manual revocation" |},
     logged Sample.platform
       (with_reason "Manual revocation"
          (with_tokenId "tok_unknown" (event "token_revoked" true (Sample.t0 + 1000))))
       (Sample.t0 + 1000) Sample.issued).
Proof.
  apply (revoke_without_record_only_logs Sample.platform "tok_unknown" None
           (Sample.t0 + 1000) Sample.issued).
  vm_compute. reflexivity.
Defined.

(** ** The handlers of the router *)



(** X20: [handleStats] answers 200 only to a header that [validate]
    accepts with the scope [admin:*] in its list; the statistics are
    read after that validation has been counted. With the table not
    bound the answer is still 200 and [success: true], and carries the
    error [Database not available]. *)
Theorem handleStats_needs_admin_scope P authHeader now e :
  status (fst (handleStats P authHeader now e)) = 200 ->
  exists v e',
    validate P authHeader now e = (Returned (Valid v), e')
    /\ In "admin:*" (v_scope v)
    /\ handleStats P authHeader now e
       = ({| status := 200; body := StatsSuccess (getStats now e') |}, e')
    /\ (AUTH_DB e = None ->
        getStats now e' = StatsError "Database not available").
Proof.
  unfold handleStats.
  destruct (Js.truthy authHeader) eqn:Ht; cbn [negb]; [|discriminate].
  destruct authHeader as [tok|]; [|discriminate Ht].
  pose proof (validate_rows_unless_refused P tok now e) as Hrows.
  destruct (validate P (Some tok) now e) as [[[v|error]|message] e'];
    cbn [fst snd] in *; try discriminate.
  destruct (Js.includes (v_scope v) "admin:*") eqn:Hi; cbn [negb fst status];
    [|discriminate].
  intros _. exists v, e'. split; [reflexivity|].
  split; [apply includes_In; exact Hi|]. split; [reflexivity|].
  intros Hdb. rewrite Hdb in Hrows. unfold getStats.
  destruct (AUTH_DB e') as [db'|]; [|reflexivity].
  specialize (Hrows ltac:(discriminate)). discriminate Hrows.
Qed.

Lemma handleStats_needs_admin_scope_witness :
  exists v e',
    validate Sample.platform (Some ("Bearer " +:+ Sample.admin_token)) (Sample.t0 + 1000)
      (snd Sample.admin_issue) = (Returned (Valid v), e')
    /\ In "admin:*" (v_scope v)
    /\ handleStats Sample.platform (Some ("Bearer " +:+ Sample.admin_token))
         (Sample.t0 + 1000) (snd Sample.admin_issue)
       = ({| status := 200; body := StatsSuccess (getStats (Sample.t0 + 1000) e') |}, e')
    /\ (AUTH_DB (snd Sample.admin_issue) = None ->
        getStats (Sample.t0 + 1000) e' = StatsError "Database not available").
Proof.
  apply (handleStats_needs_admin_scope Sample.platform
           (Some ("Bearer " +:+ Sample.admin_token)) (Sample.t0 + 1000)
           (snd Sample.admin_issue)).
  vm_compute. reflexivity.
Defined.

(** X21: given what [verifyChittyID] and [getUserPermissions]
    answered, [handleProvision] answers 201, 400, 403 or 500, and
    writes nothing when it answers 400 or 403. A token is returned only
    for a verified ChittyID and carries the scopes that [validateScopes]
    authorised, of which there is at least one; an empty request list is
    answered 400 or 403. The answer is 500 exactly when the request
    passes these checks and the expiry is no date: the error is
    [Invalid time value] and the record of a token that nobody received
    has been written. *)
Theorem handleProvision_grants_authorised_scopes P cfg x verification permissions now e :
  let answer := handleProvision P cfg x verification permissions now e in
  let granted := Router.validateScopes (default [] (p_scope x)) permissions in
  In (status (fst answer)) [201; 400; 403; 500]
  /\ (In (status (fst answer)) [400; 403] -> snd answer = e)
  /\ (In (status (fst answer)) [201; 500] <->
      Js.truthy (p_chittyId x) = true /\ is_Some (p_scope x)
      /\ Js.truthy (p_service x) = true /\ verified verification = true
      /\ granted <> [])
  /\ (status (fst answer) = 201 ->
      Js.validDate (provisionExpiry cfg x now) = true
      /\ exists result,
           body (fst answer) = ProvisionResult result /\ pr_scope result = granted)
  /\ (status (fst answer) = 500 ->
      Js.validDate (provisionExpiry cfg x now) = false
      /\ body (fst answer) = ProvisionFailure "Invalid time value"
      /\ exists row,
           row_scope row = granted
           /\ tokens <$> AUTH_DB (snd answer)
              = (fun db => tokens db ++ [row])%list <$> AUTH_DB e).
Proof.
  cbv zeta. unfold handleProvision. cbv zeta.
  destruct (Js.truthy (p_chittyId x)) eqn:Hc; cbn [negb orb fst snd status body].
  2: { split; [cbn; auto|]. split; [intros _; reflexivity|].
       split; [split; [cbn; intuition discriminate|intros (H & _); discriminate H]|].
       split; intros H; discriminate H. }
  destruct (p_scope x) as [requestedScopes|] eqn:Hs.
  2: { rewrite bool_decide_eq_false_2 by (intros [? ?]; discriminate).
       cbn [negb orb fst snd status body].
       split; [cbn; auto|]. split; [intros _; reflexivity|].
       split; [split; [cbn; intuition discriminate
                      |intros (_ & [? H] & _); discriminate H]|].
       split; intros H; discriminate H. }
  rewrite bool_decide_eq_true_2 by eauto. cbn [negb orb default from_option id].
  destruct (Js.truthy (p_service x)) eqn:Hv; cbn [negb fst snd status body].
  2: { split; [cbn; auto|]. split; [intros _; reflexivity|].
       split; [split; [cbn; intuition discriminate|intros (_ & _ & H & _); discriminate H]|].
       split; intros H; discriminate H. }
  destruct (verified verification) eqn:Hver; cbn [negb fst snd status body].
  2: { split; [cbn; auto|]. split; [intros _; reflexivity|].
       split; [split; [cbn; intuition discriminate
                      |intros (_ & _ & _ & H & _); discriminate H]|].
       split; intros H; discriminate H. }
  destruct (Router.validateScopes requestedScopes permissions) as [|scope scopes] eqn:Ha;
    cbn [List.length Nat.eqb fst snd status body].
  { split; [cbn; auto|]. split; [intros _; reflexivity|].
    split; [split; [cbn; intuition discriminate
                   |intros (_ & _ & _ & _ & H); contradiction H; reflexivity]|].
    split; intros H; discriminate H. }
  assert (Hchecks : true = true /\ is_Some (Some requestedScopes) /\ true = true
                    /\ true = true /\ scope :: scopes <> []).
  { repeat split; eauto; discriminate. }
  destruct (Js.validDate (provisionExpiry cfg x now)) eqn:Hd.
  - match goal with
    | |- context [provision P cfg ?y now e] =>
        destruct (provision_returns P cfg y now e (scope :: scopes) Hc eq_refl Hv Hd)
          as (r & e' & Hp & Hsc & _)
    end.
    rewrite Hp. cbn [fst snd status body].
    split; [cbn; auto|].
    split; [cbn; intros [H|[H|[]]]; discriminate H|].
    split; [split; [intros _; exact Hchecks|intros _; cbn; auto]|].
    split; [|intros H; discriminate H].
    intros _. split; [reflexivity|]. exists r. auto.
  - match goal with
    | |- context [provision P cfg ?y now e] =>
        destruct (provision_invalid_date P cfg y now e (scope :: scopes) Hc eq_refl Hv Hd)
          as (tokenId & token & e' & Hp & _ & _ & Hrows)
    end.
    rewrite Hp. cbn [fst snd status body].
    split; [cbn; auto 6|].
    split; [cbn; intros [H|[H|[]]]; discriminate H|].
    split; [split; [intros _; exact Hchecks|intros _; cbn; auto]|].
    split; [intros H; discriminate H|].
    intros _. split; [reflexivity|]. split; [reflexivity|].
    eexists. split; [|exact Hrows]. reflexivity.
Qed.

(** A request for 9000000000000 seconds is answered 500 after the
    record has been written. *)
Lemma handleProvision_grants_authorised_scopes_witness :
  Js.validDate (provisionExpiry Sample.config
                  {| p_chittyId := Some "03-1-USA-0001-P-251-3-82";
                     p_scope := Some ["chittyid:read"]; p_service := Some "chittyid";
                     p_expiresIn := Some 9000000000000 |} Sample.t0) = false
  /\ body (fst (handleProvision Sample.platform Sample.config
                  {| p_chittyId := Some "03-1-USA-0001-P-251-3-82";
                     p_scope := Some ["chittyid:read"]; p_service := Some "chittyid";
                     p_expiresIn := Some 9000000000000 |}
                  {| verified := true; verification_error := None |}
                  ["chittyid.read"] Sample.t0 Sample.fresh))
     = ProvisionFailure "Invalid time value"
  /\ exists row,
       row_scope row
       = Router.validateScopes (default [] (Some ["chittyid:read"])) ["chittyid.read"]
       /\ tokens <$> AUTH_DB (snd (handleProvision Sample.platform Sample.config
                                     {| p_chittyId := Some "03-1-USA-0001-P-251-3-82";
                                        p_scope := Some ["chittyid:read"];
                                        p_service := Some "chittyid";
                                        p_expiresIn := Some 9000000000000 |}
                                     {| verified := true; verification_error := None |}
                                     ["chittyid.read"] Sample.t0 Sample.fresh))
          = (fun db => tokens db ++ [row])%list <$> AUTH_DB Sample.fresh.
Proof.
  destruct (handleProvision_grants_authorised_scopes Sample.platform Sample.config
              {| p_chittyId := Some "03-1-USA-0001-P-251-3-82";
                 p_scope := Some ["chittyid:read"]; p_service := Some "chittyid";
                 p_expiresIn := Some 9000000000000 |}
              {| verified := true; verification_error := None |}
              ["chittyid.read"] Sample.t0 Sample.fresh) as (_ & _ & _ & _ & H).
  apply H. vm_compute. reflexivity.
Defined.

(** ** A revoked token is refused at once *)

Lemma revoke_AUTH_TOKENS P tokenId reason now e db token_hash :
  AUTH_DB e = Some db ->
  select_token_hash tokenId db = Some token_hash ->
  AUTH_TOKENS (snd (revoke P tokenId reason now e))
  = (fun kv => KV.delete kv ("token:" +:+ token_hash)) <$> AUTH_TOKENS e.
Proof.
  intros Hdb Hsel. unfold revoke, bind, env, update, ret.
  destruct e as [db0 tk rv rl au n]; cbn in Hdb; subst db0; cbn.
  rewrite select_token_hash_updated, Hsel. cbn.
  destruct rv as [rv|], tk as [tk|]; cbn;
    rewrite logAuditEvent_returns; cbn [snd]; rewrite logged_AUTH_TOKENS; reflexivity.
Qed.

Lemma select_active_revoked now tokenId tokenHash db :
  (forall r, In r (tokens db) -> row_token_hash r = tokenHash -> row_id r = tokenId) ->
  select_active tokenHash (update_revoked_at now tokenId db) = None.
Proof.
  unfold select_active, update_revoked_at. cbn [tokens].
  induction (tokens db) as [|r rows IH]; intros Hu; [reflexivity|].
  cbn [map find].
  rewrite IH by (intros r' Hin; apply Hu; right; exact Hin).
  destruct (String.eqb (row_id r) tokenId) eqn:Hid.
  - cbn [revoked_row row_token_hash row_revoked_at]. rewrite andb_false_r. reflexivity.
  - destruct (String.eqb_spec (row_token_hash r) tokenHash) as [Hh|Hh]; [|reflexivity].
    rewrite (Hu r (or_introl eq_refl) Hh), String.eqb_refl in Hid. discriminate Hid.
Qed.

(** X22: a revocation is effective at once and does not rest on the
    revocation namespace: when the table holds a record of [tokenId]
    and the records with its hash all have this identifier (the column
    is [UNIQUE]), [validate] of a token with that hash, run on the
    bindings that [revoke] left, returns [Token has been revoked] or
    [Token not found] at every instant, the ninety days of the marker
    or not. *)
Theorem revoked_token_is_refused_at_once P tokenId reason now e db tok now' :
  AUTH_DB e = Some db ->
  select_token_hash tokenId db = Some (hashToken P (Js.stripBearer tok)) ->
  (forall r, In r (tokens db) ->
             row_token_hash r = hashToken P (Js.stripBearer tok) -> row_id r = tokenId) ->
  isValidTokenFormat (Js.stripBearer tok) = true ->
  exists error,
    In error ["Token has been revoked"; "Token not found"]
    /\ fst (validate P (Some tok) now' (snd (revoke P tokenId reason now e)))
       = Returned (Invalid error).
Proof.
  intros Hdb Hsel Hu Hf.
  set (h := hashToken P (Js.stripBearer tok)) in *.
  pose proof (revoke_AUTH_TOKENS P tokenId reason now e db h Hdb Hsel) as Htk.
  destruct (revoke_returns P tokenId reason now e) as (e' & He' & Hrows & _).
  rewrite He' in Htk |- *. cbn [snd] in Htk |- *.
  rewrite Hdb in Hrows. cbn in Hrows.
  assert (Hl : lookup h now' e' = None).
  { unfold lookup. rewrite Htk.
    assert (Hc : match (fun kv : gmap string (TokenData * Z) =>
                          KV.delete kv ("token:" +:+ h)) <$> AUTH_TOKENS e with
                 | Some kv => KV.get kv ("token:" +:+ h) now'
                 | None => None
                 end = None).
    { destruct (AUTH_TOKENS e) as [kv|]; [|reflexivity]. cbn.
      unfold KV.get, KV.delete. rewrite lookup_delete_eq. reflexivity. }
    rewrite Hc.
    destruct (AUTH_DB e') as [db'|]; [|reflexivity].
    injection Hrows as Hrows.
    transitivity (row_data <$> select_active h (update_revoked_at now tokenId db));
      [|rewrite (select_active_revoked now tokenId h db Hu); reflexivity].
    unfold select_active. rewrite Hrows. reflexivity. }
  destruct (marker h now' e') as [rv|] eqn:Hm.
  - rewrite (validate_revoked P tok now' e' rv Hf Hm).
    eexists. split; [|reflexivity]. cbn. auto.
  - rewrite (validate_not_found P tok now' e' Hf Hm Hl).
    eexists. split; [|reflexivity]. cbn. auto.
Qed.

Lemma revoked_token_is_refused_at_once_witness :
  exists error,
    In error ["Token has been revoked"; "Token not found"]
    /\ fst (validate Sample.platform (Some Sample.token)
              (Sample.t0 + 1000 + 86400 * 90 * 1000)
              (snd (revoke Sample.platform Sample.token_id None (Sample.t0 + 1000)
                      Sample.issued)))
       = Returned (Invalid error).
Proof.
  apply (revoked_token_is_refused_at_once Sample.platform Sample.token_id None
           (Sample.t0 + 1000) Sample.issued
           (default {| tokens := []; auth_events := [] |} (AUTH_DB Sample.issued))
           Sample.token).
  - vm_compute. reflexivity.
  - vm_compute. reflexivity.
  - intros r Hin _. vm_compute in Hin. destruct Hin as [<-|[]]. vm_compute. reflexivity.
  - vm_compute. reflexivity.
Defined.

(** ** A provisioned token in the statistics *)

Lemma sum_case_app p rows rows' :
  sum_case p (rows ++ rows') = sum_case p rows + sum_case p rows'.
Proof.
  induction rows as [|r rows IH]; cbn [app sum_case fold_right]; [reflexivity|].
  fold (sum_case p (rows ++ rows')). fold (sum_case p rows). rewrite IH. lia.
Qed.

(** X23: with the table bound, a token that [provision] returns is
    counted by [getStats] at once: the total grows by one, the revoked
    count stays, and the token is counted as active at every instant
    before its [expiresAt] and as expired from [expiresAt] on. *)
Theorem provisioned_token_is_counted P cfg x now e r e' now' s :
  provision P cfg x now e = (Returned r, e') ->
  getStats now' e = StatsCounts s ->
  exists s',
    getStats now' e' = StatsCounts s'
    /\ totalTokens s' = totalTokens s + 1
    /\ revokedTokens s' = revokedTokens s
    /\ activeTokens s' = activeTokens s + (if now' <? pr_expiresAt r then 1 else 0)
    /\ expiredTokens s' = expiredTokens s + (if now' <? pr_expiresAt r then 0 else 1).
Proof.
  intros Hp Hs.
  destruct (provision_returned P cfg x now e r e' Hp) as (Hc & Hv & Hsc & _).
  destruct (provision_returns P cfg x now e (pr_scope r) Hc Hsc Hv
              (provision_returned_date P cfg x now e r e' Hp))
    as (r0 & e0 & Hp0 & _ & _ & _ & _ & _ & Hrows).
  rewrite Hp in Hp0. injection Hp0 as <- <-.
  unfold getStats in *.
  destruct (AUTH_DB e) as [db|]; [|discriminate Hs].
  destruct (AUTH_DB e') as [db'|]; [|discriminate Hrows].
  cbn in Hrows. injection Hrows as Hrows. injection Hs as <-.
  eexists. split; [reflexivity|].
  cbn [totalTokens revokedTokens activeTokens expiredTokens].
  rewrite Hrows, !sum_case_app, length_app.
  cbn [sum_case fold_right inserted_row row_revoked_at row_expires_at is_null negb andb
       List.length].
  destruct (Z.ltb_spec now' (pr_expiresAt r)), (Z.leb_spec (pr_expiresAt r) now');
    repeat split; lia.
Qed.

Lemma provisioned_token_is_counted_witness :
  exists s',
    getStats (Sample.t0 + 3600000) Sample.issued = StatsCounts s'
    /\ totalTokens s' = 0 + 1
    /\ revokedTokens s' = 0
    /\ activeTokens s' = 0 + (if Sample.t0 + 3600000 <? Sample.t0 + 3600000 then 1 else 0)
    /\ expiredTokens s' = 0 + (if Sample.t0 + 3600000 <? Sample.t0 + 3600000 then 0 else 1).
Proof.
  apply (provisioned_token_is_counted Sample.platform Sample.config Sample.input Sample.t0
           Sample.fresh
           {| pr_token := Sample.token; pr_tokenId := Sample.token_id;
              pr_scope := ["chittyid:read"]; pr_expiresAt := Sample.t0 + 3600000;
              pr_rateLimit := {| requests := 100; window := "1h" |} |}
           Sample.issued (Sample.t0 + 3600000)
           {| totalTokens := 0; activeTokens := 0; revokedTokens := 0;
              expiredTokens := 0; requestsToday := 0 |});
    vm_compute; reflexivity.
Defined.
